(** * forum-crawler-backend: feed normalizer, keyword filter, ingest pipeline
      and topic CRUD, embedded from [app/fetchers.py], [app/tasks.py],
      [app/crud.py], [app/main.py], [app/schemas.py] and [app/models.py]. *)

From Stdlib Require Import ZArith Ascii.
From Stdlib Require String.
From stdpp Require Import base option list strings gmap sorting.

Local Open Scope Z_scope.

(** ** Python values

    The text-valued slots of a feed entry hold either [None] or a [str].
    [truthy] is Python's truth test on such a value and [py_or] is the
    short-circuit [a or b], which returns an operand, not a boolean. *)

Inductive value : Type :=
  | VNone
  | VStr (s : string).

#[global] Instance value_eq_dec : EqDecision value.
Proof. solve_decision. Defined.

Definition truthy (v : value) : bool :=
  match v with
  | VNone => false
  | VStr "" => false
  | VStr (String _ _) => true
  end.

Definition py_or (a b : value) : value := if truthy a then a else b.

(** [str(v)] as an f-string interpolates it. *)
Definition py_format (v : value) : string :=
  match v with
  | VNone => "None"
  | VStr s => s
  end.

(** ** Strings *)

(** [needle in hay] on [str]: substring containment. *)
Fixpoint contains (needle hay : string) : bool :=
  if String.prefix needle hay then true
  else match hay with
       | "" => false
       | String _ hay' => contains needle hay'
       end.

(** The mathematical reading of containment, used to state what [contains]
    decides. *)
Definition is_substring (needle hay : string) : Prop :=
  ∃ pre post, hay = pre +:+ needle +:+ post.

(** An ASCII instance of [str.lower], for evaluating the model on concrete
    inputs.  The development itself is parametric in the lowering function. *)
Definition ascii_lower_char (c : ascii) : ascii :=
  let n := nat_of_ascii c in
  if ((65 <=? n) && (n <=? 90))%nat then ascii_of_nat (n + 32) else c.

Fixpoint ascii_lower (s : string) : string :=
  match s with
  | "" => ""
  | String c s' => String (ascii_lower_char c) (ascii_lower s')
  end.

(** ** Errors and results *)

Inductive error : Type :=
  | ValueError (msg : string)
  | HTTPError (msg : string)
  | IntegrityError (msg : string)
  | MultipleResultsFound
  | ValidationError (msg : string)
  | OverflowError (msg : string)
  | OSError (msg : string).

Inductive result (A : Type) : Type :=
  | Ok (a : A)
  | Err (e : error).
Arguments Ok {A} a.
Arguments Err {A} e.

Definition bind {A B} (r : result A) (k : A → result B) : result B :=
  match r with
  | Ok a => k a
  | Err e => Err e
  end.

Notation "x ← r ;;; k" := (bind r (fun x => k))
  (at level 20, r at level 100, k at level 200, only parsing, right associativity).
Notation "' p ← r ;;; k" := (bind r (fun x => let 'p := x in k))
  (at level 20, p pattern, r at level 100, k at level 200, only parsing,
   right associativity).

Section Crawler.

(** [str.lower]; Python lowers by Unicode rules, so it is kept abstract. *)
Variable lower : string → string.

(** ** fetchers.py: keyword filter *)

Definition match_keywords (text : value) (keywords : list string) : bool :=
  match keywords with
  | [] => true
  | _ :: _ =>
      match text with
      | VNone => false
      | VStr "" => false
      | VStr ((String _ _) as t) =>
          let lowered := lower t in
          existsb (fun keyword => contains (lower keyword) lowered) keywords
      end
  end.

(** ** fetchers.py: feed normalizer *)

(** A raw feed entry, [Mapping[str, Any]], restricted to the keys
    [_entry_to_dict] reads.  A text slot is [None] when the key is absent and
    [Some v] when it is present with value [v] (which may itself be Python's
    [None]).  [raw_content] is the list under ["content"], each item reduced
    to its ["value"] slot; the [*_parsed] slots hold the [struct_time],
    [None] when absent or null. *)

(** The six leading fields of a [time.struct_time], the ones
    [calendar.timegm] reads. *)
Record struct_time : Type := {
  tm_year : Z;
  tm_mon : Z;
  tm_mday : Z;
  tm_hour : Z;
  tm_min : Z;
  tm_sec : Z;
}.

(** The integers of the C types [int] and [long long] of the interpreter
    and of the 64-bit engine. *)
Definition fits_int32 (z : Z) : bool := (- 2 ^ 31 <=? z) && (z <? 2 ^ 31).
Definition fits_int64 (z : Z) : bool := (- 2 ^ 63 <=? z) && (z <? 2 ^ 63).

(** Passing a Python integer where the interpreter wants a C [int]. *)
Definition as_c_int (z : Z) : result Z :=
  if fits_int32 z then Ok z
  else if negb (fits_int64 z) then
    Err (OverflowError "Python int too large to convert to C long")
  else if 0 <? z then
    Err (OverflowError "signed integer is greater than maximum")
  else Err (OverflowError "signed integer is less than minimum").

(** [datetime.MINYEAR], [datetime.MAXYEAR] and the ordinal of 1970-01-01. *)
Definition MINYEAR : Z := 1.
Definition MAXYEAR : Z := 9999.
Definition _EPOCH_ORD : Z := 719163.

Definition _is_leap (year : Z) : bool :=
  (year mod 4 =? 0) && (negb (year mod 100 =? 0) || (year mod 400 =? 0)).

(** Days before January 1st of [year]. *)
Definition _days_before_year (year : Z) : Z :=
  let y := year - 1 in
  y * 365 + y / 4 - y / 100 + y / 400.

(** Days of [year] before the first day of [month]. *)
Definition _days_before_month (year month : Z) : Z :=
  nth (Z.to_nat (month - 1))
      [0; 31; 59; 90; 120; 151; 181; 212; 243; 273; 304; 334] 0
  + (if (2 <? month) && _is_leap year then 1 else 0).

(** [datetime.date(year, month, 1).toordinal()]: the constructor takes its
    arguments as C [int]s, then raises outside the years and months of the
    calendar.  (Python's message also names the year.) *)
Definition first_of_month_ordinal (year month : Z) : result Z :=
  year ← as_c_int year;;;
  month ← as_c_int month;;;
  if negb ((MINYEAR <=? year) && (year <=? MAXYEAR)) then
    Err (ValueError "year is out of range")
  else if negb ((1 <=? month) && (month <=? 12)) then
    Err (ValueError "month must be in 1..12")
  else Ok (_days_before_year year + _days_before_month year month + 1).

(** [calendar.timegm(tuple)]. *)
Definition timegm (t : struct_time) : result Z :=
  ordinal ← first_of_month_ordinal (tm_year t) (tm_mon t);;;
  let days := ordinal - _EPOCH_ORD + tm_mday t - 1 in
  let hours := days * 24 + tm_hour t in
  let minutes := hours * 60 + tm_min t in
  let seconds := minutes * 60 + tm_sec t in
  Ok seconds.

(** The epoch seconds of 0001-01-01T00:00:00 and 9999-12-31T23:59:59 UTC,
    the ends of [datetime]'s range. *)
Definition MIN_TIMESTAMP : Z := -62135596800.
Definition MAX_TIMESTAMP : Z := 253402300799.

(** The instants whose year the C library's [gmtime] can hold in an [int]
    counted from 1900. *)
Definition MIN_GMTIME : Z := -67768040609740800.
Definition MAX_GMTIME : Z := 67768036191676799.

(** [datetime.fromtimestamp(seconds, tz=timezone.utc)], as the interpreter
    runs it on 64-bit Linux.  A datetime is kept as its epoch seconds.  The
    conversion raises when the instant falls outside the years of
    [datetime]: in the conversion to [time_t], in [gmtime], or in the
    constructor of the datetime, whichever gives up first. *)
Definition fromtimestamp (seconds : Z) : result Z :=
  if negb (fits_int64 seconds) then
    Err (OverflowError "timestamp out of range for platform time_t")
  else if negb ((MIN_GMTIME <=? seconds) && (seconds <=? MAX_GMTIME)) then
    Err (OSError "[Errno 75] Value too large for defined data type")
  else if (MIN_TIMESTAMP <=? seconds) && (seconds <=? MAX_TIMESTAMP)
  then Ok seconds
  else Err (ValueError "year is out of range").

Record raw_entry : Type := {
  raw_link : option value;
  raw_id : option value;
  raw_guid : option value;
  raw_title : option value;
  raw_summary : option value;
  raw_content : option (list (option value));
  raw_published_parsed : option struct_time;
  raw_updated_parsed : option struct_time;
  raw_created_parsed : option struct_time;
}.

(** [entry.get(key)] and [entry.get(key, dflt)]. *)
Definition get (slot : option value) : value := default VNone slot.
Definition get_default (slot : option value) (dflt : value) : value :=
  default dflt slot.

(** [a or b] on the optional [struct_time]s: every [struct_time] is truthy. *)
Definition time_or (a b : option struct_time) : option struct_time :=
  match a with
  | Some t => Some t
  | None => b
  end.

(** The normalized entry: the dict [_entry_to_dict] returns. *)
Record entry : Type := {
  entry_title : value;
  entry_link : value;
  entry_summary : value;
  entry_uid : value;
  entry_published_at : Z;
}.

(** [now] is the value of [datetime.now(timezone.utc)].  The conversion of
    the chosen [struct_time] is the one step of the function that can
    raise. *)
Definition _entry_to_dict (e : raw_entry) (source : string) (now : Z)
  : result entry :=
  let link := py_or (py_or (get (raw_link e)) (get (raw_id e))) (VStr "") in
  let uid :=
    py_or (py_or (py_or (get (raw_id e)) (get (raw_guid e))) link)
          (VStr (source +:+ ":" +:+
                 py_format (get_default (raw_title e) (VStr "")))) in
  let summary := get (raw_summary e) in
  let summary :=
    if negb (truthy summary) then
      match raw_content e with
      | Some (item :: _) => get item
      | Some [] | None => summary
      end
    else summary in
  let published_struct :=
    time_or (time_or (raw_published_parsed e) (raw_updated_parsed e))
            (raw_created_parsed e) in
  published_at ←
    match published_struct with
    | Some t => seconds ← timegm t;;; fromtimestamp seconds
    | None => Ok now
    end;;;
  Ok {| entry_title := py_or (get (raw_title e)) (VStr "");
        entry_link := link;
        entry_summary := summary;
        entry_uid := uid;
        entry_published_at := published_at |}.

(** [[_entry_to_dict(entry, source) for entry in entries]]: the first entry
    that fails to convert raises out of the comprehension. *)
Fixpoint entries_to_dicts (entries : list raw_entry) (source : string)
    (now : Z) : result (list entry) :=
  match entries with
  | [] => Ok []
  | e :: rest =>
      d ← _entry_to_dict e source now;;;
      ds ← entries_to_dicts rest source now;;;
      Ok (d :: ds)
  end.

(** ** fetchers.py: network access and source dispatch

    The network is an oracle from a feed URL to the outcome of one GET
    followed by [feedparser.parse]: a transport or HTTP error, or the parsed
    document, whose [entries] attribute may be missing.  Every fetching
    function returns, next to its result, the list of URLs it requested. *)

Record parsed_feed : Type := {
  feed_entries : option (list raw_entry);
}.

Definition network : Type := string → result parsed_feed.

Definition fetched (A : Type) : Type := (list string * result A)%type.

Definition _fetch_and_parse (net : network) (feed_url : string)
  : fetched parsed_feed :=
  ([feed_url], net feed_url).

Definition _fetch_generic_feed (net : network) (now : Z)
    (feed_url source : string) : fetched (list entry) :=
  let '(requests, r) := _fetch_and_parse net feed_url in
  (requests,
   parsed ← r;;;
   let entries := default [] (feed_entries parsed) in
   entries_to_dicts entries source now).

Definition fetch_v2ex_feed (net : network) (now : Z) (feed_url : string) :=
  _fetch_generic_feed net now feed_url "v2ex".

Definition fetch_nodeseek_feed (net : network) (now : Z) (feed_url : string) :=
  _fetch_generic_feed net now feed_url "nodeseek".

Definition fetch_linux_do_feed (net : network) (now : Z) (feed_url : string) :=
  _fetch_generic_feed net now feed_url "linux.do".

Definition fetchers
  : gmap string (network → Z → string → fetched (list entry)) :=
  {[ "v2ex" := fetch_v2ex_feed;
     "nodeseek" := fetch_nodeseek_feed;
     "linux.do" := fetch_linux_do_feed ]}.

Definition fetch_feed (net : network) (now : Z) (source feed_url : string)
  : fetched (list entry) :=
  match fetchers !! lower source with
  | Some fetcher => fetcher net now feed_url
  | None => ([], Err (ValueError ("Unsupported source: " +:+ source)))
  end.

(** ** models.py: the persisted entities

    Timestamps are epoch seconds.  [topic_keywords] is the one nullable
    column of [topics]; [post_content] and [log_message] are nullable too. *)

Record Topic : Type := {
  topic_id : Z;
  topic_name : string;
  topic_source : string;
  topic_feed_url : string;
  topic_keywords : option (list string);
  topic_is_active : bool;
  topic_created_at : Z;
  topic_updated_at : Z;
}.

Record Post : Type := {
  post_id : Z;
  post_topic_id : Z;
  post_title : string;
  post_content : option string;
  post_link : string;
  post_uid : string;
  post_published_at : Z;
  post_is_pushed : bool;
  post_created_at : Z;
}.

Record PushLog : Type := {
  log_id : Z;
  log_post_id : Z;
  log_status : string;
  log_message : option string;
  log_created_at : Z;
}.

#[global] Instance Topic_eq_dec : EqDecision Topic.
Proof. solve_decision. Defined.
#[global] Instance Post_eq_dec : EqDecision Post.
Proof. solve_decision. Defined.
#[global] Instance PushLog_eq_dec : EqDecision PushLog.
Proof. solve_decision. Defined.

(** The three tables.  A session works on a copy of the committed tables:
    [commit] makes the copy the persisted state, [rollback] drops it. *)
Record DB : Type := {
  topics : list Topic;
  posts : list Post;
  push_logs : list PushLog;
}.

(** The next value of an integer primary key: one more than the largest
    key in the table, and 1 for an empty table. *)
Definition next_id (ids : list Z) : Z := 1 + foldr Z.max 0 ids.

(** [session.add(post); session.flush()] for
    [Post(topic_id=owner, title, content, link, uid, published_at)]: the INSERT
    checks the NOT NULL columns, the foreign key to [topics] and the unique
    constraint [uq_posts_uid], then the server fills [id], [is_pushed] and
    [created_at]. *)
Definition add_post (session : DB) (now : Z) (owner : Z)
    (title content link uid : value) (published_at : Z)
  : result (DB * Post) :=
  match title, link, uid with
  | VStr title, VStr link, VStr uid =>
      if negb (bool_decide (owner ∈ map topic_id (topics session))) then
        Err (IntegrityError "FOREIGN KEY constraint failed")
      else if bool_decide (uid ∈ map post_uid (posts session)) then
        Err (IntegrityError "UNIQUE constraint failed: posts.uid")
      else
        let post :=
          {| post_id := next_id (map post_id (posts session));
             post_topic_id := owner;
             post_title := title;
             post_content :=
               match content with VStr c => Some c | VNone => None end;
             post_link := link;
             post_uid := uid;
             post_published_at := published_at;
             post_is_pushed := false;
             post_created_at := now |} in
        Ok ({| topics := topics session;
               posts := posts session ++ [post];
               push_logs := push_logs session |}, post)
  | _, _, _ => Err (IntegrityError "NOT NULL constraint failed")
  end.

(** [session.add(PushLog(post_id=owner, status))]. *)
Definition add_push_log (session : DB) (now : Z) (owner : Z)
    (status : string) : DB :=
  let log :=
    {| log_id := next_id (map log_id (push_logs session));
       log_post_id := owner;
       log_status := status;
       log_message := None;
       log_created_at := now |} in
  {| topics := topics session;
     posts := posts session;
     push_logs := push_logs session ++ [log] |}.

(** ** tasks.py: the ingest pipeline *)

Record stats : Type := {
  topics_checked : nat;
  posts_created : nat;
  duplicates : nat;
}.

Definition _get_active_topics (session : DB) : list Topic :=
  List.filter topic_is_active (topics session).

(** [scalar_one_or_none() is not None] over the rows whose uid equals
    [uid]; more than one row raises. *)
Definition _uid_exists (session : DB) (uid : value) : result bool :=
  match List.filter (fun p => bool_decide (VStr (post_uid p) = uid))
                    (posts session) with
  | [] => Ok false
  | [_] => Ok true
  | _ :: _ :: _ => Err MultipleResultsFound
  end.

(** The strings among the truthy values of a list. *)
Definition truthy_strs (parts : list value) : list string :=
  omap (fun part =>
          match part with
          | VStr ((String _ _) as s) => Some s
          | VStr "" | VNone => None
          end) parts.

Definition _should_keep_entry (e : entry) (keywords : option (list string))
  : bool :=
  let text_parts := [entry_title e; entry_summary e] in
  let combined := String.concat " " (truthy_strs text_parts) in
  let keyword_list :=
    match keywords with
    | Some ((_ :: _) as ks) => ks
    | Some [] | None => []
    end in
  match_keywords (VStr combined) keyword_list.

(** The body of the inner loop of [fetch_all_topics] for one entry. *)
Definition ingest_entry (now : Z) (topic : Topic) (st : DB * stats)
    (e : entry) : result (DB * stats) :=
  let '(session, s) := st in
  let uid := entry_uid e in
  exists_ ← _uid_exists session uid;;;
  if (exists_ : bool) then
    Ok (session, {| topics_checked := topics_checked s;
                    posts_created := posts_created s;
                    duplicates := S (duplicates s) |})
  else if negb (_should_keep_entry e (topic_keywords topic)) then
    Ok (session, s)
  else
    '(session, post) ← add_post session now (topic_id topic) (entry_title e)
                          (entry_summary e) (entry_link e) uid
                          (entry_published_at e);;;
    let session := add_push_log session now (post_id post) "pending" in
    Ok (session, {| topics_checked := topics_checked s;
                    posts_created := S (posts_created s);
                    duplicates := duplicates s |}).

(** [for entry in entries: ...] *)
Fixpoint ingest_entries (now : Z) (topic : Topic) (entries : list entry)
    (st : DB * stats) : result (DB * stats) :=
  match entries with
  | [] => Ok st
  | e :: rest =>
      st ← ingest_entry now topic st e;;;
      ingest_entries now topic rest st
  end.

(** [for topic in topics: entries = asyncio.run(fetch_feed(...)); ...] *)
Fixpoint ingest_topics (net : network) (now : Z) (active : list Topic)
    (st : DB * stats) : result (DB * stats) :=
  match active with
  | [] => Ok st
  | topic :: rest =>
      entries ← (fetch_feed net now (topic_source topic)
                            (topic_feed_url topic)).2;;;
      st ← ingest_entries now topic entries st;;;
      ingest_topics net now rest st
  end.

(** One run of the task on the persisted state [db]: the new persisted
    state and what the caller sees.  [now] is the clock of the run. *)
Definition fetch_all_topics (net : network) (now : Z) (db : DB)
  : DB * result stats :=
  let session := db in
  let s := {| topics_checked := 0; posts_created := 0; duplicates := 0 |} in
  let body :=
    let active := _get_active_topics session in
    let s := {| topics_checked := length active;
                posts_created := posts_created s;
                duplicates := duplicates s |} in
    ingest_topics net now active (session, s) in
  match body with
  | Ok (session, s) => (session, Ok s)      (* session.commit() *)
  | Err e => (db, Err e)                    (* session.rollback(); raise *)
  end.

End Crawler.

(** ** schemas.py: the topic payloads *)

Record TopicCreate : Type := {
  create_name : string;
  create_source : string;
  create_feed_url : string;
  create_keywords : list string;
  create_is_active : bool;
}.

(** Every field of [TopicUpdate] is optional with default [None].  A field
    is [None] here when the payload does not set it, [Some None] when the
    payload sets it to null and [Some (Some v)] when it sets it to [v]:
    [model_dump(exclude_unset=True)] tells the first two apart. *)
Record TopicUpdate : Type := {
  update_name : option (option string);
  update_source : option (option string);
  update_feed_url : option (option string);
  update_keywords : option (option (list string));
  update_is_active : option (option bool);
}.

(** One item of the dumped payload: the field and the value to set. *)
Inductive field_value : Type :=
  | set_name (v : option string)
  | set_source (v : option string)
  | set_feed_url (v : option string)
  | set_keywords (v : option (list string))
  | set_is_active (v : option bool).

Definition model_dump_exclude_unset (u : TopicUpdate) : list field_value :=
  option_list (set_name <$> update_name u) ++
  option_list (set_source <$> update_source u) ++
  option_list (set_feed_url <$> update_feed_url u) ++
  option_list (set_keywords <$> update_keywords u) ++
  option_list (set_is_active <$> update_is_active u).

Record TopicRead : Type := {
  read_name : string;
  read_source : string;
  read_feed_url : string;
  read_keywords : list string;
  read_is_active : bool;
  read_id : Z;
  read_created_at : Z;
  read_updated_at : Z;
}.

(** [TopicRead.model_validate(topic)]: [keywords] must be a list. *)
Definition model_validate (topic : Topic) : result TopicRead :=
  match topic_keywords topic with
  | Some ks =>
      Ok {| read_name := topic_name topic;
            read_source := topic_source topic;
            read_feed_url := topic_feed_url topic;
            read_keywords := ks;
            read_is_active := topic_is_active topic;
            read_id := topic_id topic;
            read_created_at := topic_created_at topic;
            read_updated_at := topic_updated_at topic |}
  | None => Err (ValidationError "keywords: Input should be a valid list")
  end.

(** The settable attributes of a loaded [Topic] object; [setattr] can make
    any of them [None]. *)
Record TopicAttrs : Type := {
  attr_name : option string;
  attr_source : option string;
  attr_feed_url : option string;
  attr_keywords : option (list string);
  attr_is_active : option bool;
}.

#[global] Instance TopicAttrs_eq_dec : EqDecision TopicAttrs.
Proof. solve_decision. Defined.

Definition attrs_of (topic : Topic) : TopicAttrs :=
  {| attr_name := Some (topic_name topic);
     attr_source := Some (topic_source topic);
     attr_feed_url := Some (topic_feed_url topic);
     attr_keywords := topic_keywords topic;
     attr_is_active := Some (topic_is_active topic) |}.

Definition setattr (o : TopicAttrs) (fv : field_value) : TopicAttrs :=
  match fv with
  | set_name v =>
      {| attr_name := v; attr_source := attr_source o;
         attr_feed_url := attr_feed_url o; attr_keywords := attr_keywords o;
         attr_is_active := attr_is_active o |}
  | set_source v =>
      {| attr_name := attr_name o; attr_source := v;
         attr_feed_url := attr_feed_url o; attr_keywords := attr_keywords o;
         attr_is_active := attr_is_active o |}
  | set_feed_url v =>
      {| attr_name := attr_name o; attr_source := attr_source o;
         attr_feed_url := v; attr_keywords := attr_keywords o;
         attr_is_active := attr_is_active o |}
  | set_keywords v =>
      {| attr_name := attr_name o; attr_source := attr_source o;
         attr_feed_url := attr_feed_url o; attr_keywords := v;
         attr_is_active := attr_is_active o |}
  | set_is_active v =>
      {| attr_name := attr_name o; attr_source := attr_source o;
         attr_feed_url := attr_feed_url o; attr_keywords := attr_keywords o;
         attr_is_active := v |}
  end.

(** ** The storage layer under the topic endpoints

    Only the constraints [models.py] declares are modelled: NOT NULL and
    the unique [name].  Column length limits depend on the engine and are
    left out. *)

(** INSERT of a new topic and commit. *)
Definition insert_topic (db : DB) (now : Z) (t : TopicCreate)
  : result (DB * Topic) :=
  if bool_decide (create_name t ∈ map topic_name (topics db)) then
    Err (IntegrityError "UNIQUE constraint failed: topics.name")
  else
    let topic :=
      {| topic_id := next_id (map topic_id (topics db));
         topic_name := create_name t;
         topic_source := create_source t;
         topic_feed_url := create_feed_url t;
         topic_keywords := Some (create_keywords t);
         topic_is_active := create_is_active t;
         topic_created_at := now;
         topic_updated_at := now |} in
    Ok ({| topics := topics db ++ [topic];
           posts := posts db;
           push_logs := push_logs db |}, topic).

(** Commit of a loaded topic whose attributes are now [attrs], followed by
    the reload of the row.  The ORM emits an UPDATE only when an attribute
    differs from the loaded row, and [updated_at] is refreshed
    ([onupdate=func.now()]) exactly when an UPDATE is emitted. *)
Definition update_row (db : DB) (now : Z) (topic : Topic)
    (attrs : TopicAttrs) : result (DB * Topic) :=
  if bool_decide (attrs = attrs_of topic) then Ok (db, topic)
  else
    match attr_name attrs, attr_source attrs, attr_feed_url attrs,
          attr_is_active attrs with
    | Some name, Some source, Some feed_url, Some is_active =>
        if existsb (fun other =>
                      bool_decide (topic_id other ≠ topic_id topic) &&
                      bool_decide (topic_name other = name)) (topics db)
        then Err (IntegrityError "UNIQUE constraint failed: topics.name")
        else
          let row :=
            {| topic_id := topic_id topic;
               topic_name := name;
               topic_source := source;
               topic_feed_url := feed_url;
               topic_keywords := attr_keywords attrs;
               topic_is_active := is_active;
               topic_created_at := topic_created_at topic;
               topic_updated_at := now |} in
          Ok ({| topics :=
                   map (fun other =>
                          if bool_decide (topic_id other = topic_id topic)
                          then row else other) (topics db);
                 posts := posts db;
                 push_logs := push_logs db |}, row)
    | _, _, _, _ => Err (IntegrityError "NOT NULL constraint failed")
    end.

(** DELETE of a loaded topic and commit.  The relationships are declared
    [cascade="all, delete-orphan"]: the ORM deletes the topic's posts, and
    with each post its push logs, before the topic's row. *)
Definition delete_row (db : DB) (topic : Topic) : DB :=
  let owned p := bool_decide (post_topic_id p = topic_id topic) in
  let doomed := map post_id (List.filter owned (posts db)) in
  {| topics :=
       List.filter (fun t => negb (bool_decide (topic_id t = topic_id topic)))
                   (topics db);
     posts := List.filter (fun p => negb (owned p)) (posts db);
     push_logs :=
       List.filter (fun l => negb (bool_decide (log_post_id l ∈ doomed)))
                   (push_logs db) |}.

(** [ORDER BY topics.id] and [ORDER BY created_at DESC]. *)
Definition by_id (x y : Topic) : Prop := topic_id x ≤ topic_id y.
Definition newest_post_first (x y : Post) : Prop :=
  post_created_at y ≤ post_created_at x.
Definition newest_log_first (x y : PushLog) : Prop :=
  log_created_at y ≤ log_created_at x.

#[global] Instance by_id_dec x y : Decision (by_id x y).
Proof. unfold by_id. apply _. Defined.
#[global] Instance newest_post_first_dec x y : Decision (newest_post_first x y).
Proof. unfold newest_post_first. apply _. Defined.
#[global] Instance newest_log_first_dec x y : Decision (newest_log_first x y).
Proof. unfold newest_log_first. apply _. Defined.

(** [.offset(skip).limit(limit)] on the ordered rows. *)
Definition page {A} (skip limit : nat) (rows : list A) : list A :=
  take limit (drop skip rows).

(** [posts JOIN topics ON topics.id = posts.topic_id WHERE topics.source =
    source], projected on the post: one row per matching pair. *)
Definition join_source (rows : list Post) (ts : list Topic) (source : string)
  : list Post :=
  flat_map
    (fun p =>
       map (fun _ => p)
           (List.filter
              (fun t => bool_decide (topic_id t = post_topic_id p) &&
                        bool_decide (topic_source t = source)) ts))
    rows.

(** The dict [get_system_stats] returns. *)
Record system_stats : Type := {
  topics_total : nat;
  active_topics : nat;
  posts_total : nat;
  logs_total : nat;
}.

(** ** The database engine

    What the statements of [crud.py] leave to the engine behind the
    session: which integers its driver can bind as a query parameter, as a
    key compared with an integer column and as a [LIMIT] or [OFFSET], and
    the order in which it returns rows of equal [created_at] under
    [ORDER BY created_at DESC].  The endpoints take [topic_id], [skip] and
    [limit] as Python integers, which have no upper bound; the driver raises
    on one it cannot bind. *)
Record Engine : Type := {
  binds_key : Z → bool;
  binds_count : Z → bool;
  posts_newest_first : list Post → list Post;
  logs_newest_first : list PushLog → list PushLog;
}.

(** Passing an integer parameter to the driver. *)
Definition bind_param (accepted : bool) : result unit :=
  if accepted then Ok ()
  else Err (OverflowError "Python int too large to convert to SQLite INTEGER").

(** SQLite, the engine of the repository's test-suite: integers of 64 bits,
    and one sorted order for the evaluation of the model. *)
Definition sqlite : Engine :=
  {| binds_key := fits_int64;
     binds_count := fits_int64;
     posts_newest_first := merge_sort newest_post_first;
     logs_newest_first := merge_sort newest_log_first |}.

(** ** crud.py *)
Module crud.

Definition create_topic (db : DB) (now : Z) (topic_in : TopicCreate)
  : result (DB * Topic) :=
  insert_topic db now topic_in.

(** [session.get(models.Topic, topic_id)] in a session that has loaded
    nothing yet: a SELECT by primary key with [topic_id] as parameter. *)
Definition get_topic (eng : Engine) (db : DB) (id : Z)
  : result (option Topic) :=
  _ ← bind_param (binds_key eng id);;;
  Ok (List.find (fun t => bool_decide (topic_id t = id)) (topics db)).

Definition update_topic (db : DB) (now : Z) (topic : Topic)
    (topic_in : TopicUpdate) : result (DB * Topic) :=
  let attrs :=
    foldl setattr (attrs_of topic) (model_dump_exclude_unset topic_in) in
  update_row db now topic attrs.

(** [scalar_one_or_none()] over the topics named [name]. *)
Definition get_topic_by_name (db : DB) (name : string)
  : result (option Topic) :=
  match List.filter (fun t => bool_decide (topic_name t = name))
                    (topics db) with
  | [] => Ok None
  | [t] => Ok (Some t)
  | _ :: _ :: _ => Err MultipleResultsFound
  end.

(** The list functions take [skip] and [limit] as naturals: the endpoints
    call them with validated values only.  The count statement runs first,
    then the page statement with [skip] and [limit] as parameters. *)
Definition list_topics (eng : Engine) (db : DB) (skip limit : N)
  : result (list Topic * nat) :=
  let total := length (topics db) in
  _ ← bind_param (binds_count eng (Z.of_N skip) &&
                  binds_count eng (Z.of_N limit));;;
  let rows :=
    page (N.to_nat skip) (N.to_nat limit) (merge_sort by_id (topics db)) in
  Ok (rows, total).

Definition delete_topic (db : DB) (topic : Topic) : DB :=
  delete_row db topic.

Definition list_posts (eng : Engine) (db : DB) (skip limit : N)
    (by_topic : option Z) (by_source : option string)
  : result (list Post * nat) :=
  let stmt := posts db in
  let stmt :=
    match by_topic with
    | Some id =>
        List.filter (fun p => bool_decide (post_topic_id p = id)) stmt
    | None => stmt
    end in
  let stmt :=
    match by_source with
    | Some source => join_source stmt (topics db) source
    | None => stmt
    end in
  _ ← match by_topic with
      | Some id => bind_param (binds_key eng id)
      | None => Ok ()
      end;;;
  let total := length stmt in
  _ ← bind_param (binds_count eng (Z.of_N skip) &&
                  binds_count eng (Z.of_N limit));;;
  Ok (page (N.to_nat skip) (N.to_nat limit) (posts_newest_first eng stmt),
      total).

Definition list_push_logs (eng : Engine) (db : DB) (skip limit : N)
    (status : option string) : result (list PushLog * nat) :=
  let stmt := push_logs db in
  let stmt :=
    match status with
    | Some st => List.filter (fun l => bool_decide (log_status l = st)) stmt
    | None => stmt
    end in
  let total := length stmt in
  _ ← bind_param (binds_count eng (Z.of_N skip) &&
                  binds_count eng (Z.of_N limit));;;
  Ok (page (N.to_nat skip) (N.to_nat limit) (logs_newest_first eng stmt),
      total).

Definition get_system_stats (db : DB) : system_stats :=
  {| topics_total := length (topics db);
     active_topics := length (List.filter topic_is_active (topics db));
     posts_total := length (posts db);
     logs_total := length (push_logs db) |}.

End crud.

(** ** main.py: the topic endpoints *)

(** What the HTTP client gets: the endpoint's return value under its
    success status, an [HTTPException] the endpoint raised, or an exception
    nothing handled (a 500 response). *)
Inductive response (A : Type) : Type :=
  | Returned (status_code : Z) (body : A)
  | HTTPException (status_code : Z) (detail : string)
  | Unhandled (e : error).
Arguments Returned {A} status_code body.
Arguments HTTPException {A} status_code detail.
Arguments Unhandled {A} e.

Definition HTTP_200_OK : Z := 200.
Definition HTTP_201_CREATED : Z := 201.
Definition HTTP_400_BAD_REQUEST : Z := 400.
Definition HTTP_404_NOT_FOUND : Z := 404.
Definition HTTP_204_NO_CONTENT : Z := 204.

(** The body of the list endpoints. *)
Record PaginatedResponse (T : Type) : Type := {
  page_items : list T;
  page_total : nat;
  page_skip : Z;
  page_limit : Z;
}.
Arguments page_items {T} _.
Arguments page_total {T} _.
Arguments page_skip {T} _.
Arguments page_limit {T} _.

(** What the framework does with a request: reject it with 422 when a
    query parameter breaks its declared bounds ([Query(..., ge=, le=)]), or
    run the endpoint. *)
Inductive validated (A : Type) : Type :=
  | Unprocessable (param : string)
  | Processed (a : A).
Arguments Unprocessable {A} param.
Arguments Processed {A} a.

(** [[TopicRead.model_validate(topic) for topic in topics]] *)
Fixpoint validate_all (rows : list Topic) : result (list TopicRead) :=
  match rows with
  | [] => Ok []
  | topic :: rest =>
      body ← model_validate topic;;;
      bodies ← validate_all rest;;;
      Ok (body :: bodies)
  end.

(** The status code the client sees. *)
Definition status_of {A} (r : response A) : Z :=
  match r with
  | Returned code _ => code
  | HTTPException code _ => code
  | Unhandled _ => 500
  end.

Module main.

Definition respond (db : DB) (success : Z) (topic : Topic)
  : DB * response TopicRead :=
  match model_validate topic with
  | Ok body => (db, Returned success body)
  | Err e => (db, Unhandled e)
  end.

Definition create_topic (db : DB) (now : Z) (topic_in : TopicCreate)
  : DB * response TopicRead :=
  match crud.create_topic db now topic_in with
  | Ok (db', topic) => respond db' HTTP_201_CREATED topic
  | Err (IntegrityError _) =>
      (* session.rollback() *)
      (db, HTTPException HTTP_400_BAD_REQUEST
             "Topic with the same name already exists.")
  | Err e => (db, Unhandled e)
  end.

Definition update_topic (eng : Engine) (db : DB) (now : Z) (id : Z)
    (topic_in : TopicUpdate) : DB * response TopicRead :=
  match crud.get_topic eng db id with
  | Err e => (db, Unhandled e)
  | Ok None => (db, HTTPException HTTP_404_NOT_FOUND "Topic not found.")
  | Ok (Some topic) =>
      match crud.update_topic db now topic topic_in with
      | Ok (db', updated) => respond db' HTTP_200_OK updated
      | Err (IntegrityError _) =>
          (db, HTTPException HTTP_400_BAD_REQUEST
                 "Topic with the same name already exists.")
      | Err e => (db, Unhandled e)
      end
  end.

(** [skip: int = Query(0, ge=0)], [limit: int = Query(20, ge=1, le=100)]. *)
Definition check_page {A} (skip limit : Z) (k : validated A) : validated A :=
  if skip <? 0 then Unprocessable "skip"
  else if (limit <? 1) || (100 <? limit) then Unprocessable "limit"
  else k.

(** [topic_id: Optional[int] = Query(None, ge=1)]. *)
Definition check_topic_id {A} (by_topic : option Z) (k : validated A)
  : validated A :=
  match by_topic with
  | Some id => if id <? 1 then Unprocessable "topic_id" else k
  | None => k
  end.

Definition list_topics (eng : Engine) (db : DB) (skip limit : Z)
  : validated (response (PaginatedResponse TopicRead)) :=
  check_page skip limit
    (match crud.list_topics eng db (Z.to_N skip) (Z.to_N limit) with
     | Ok (rows, total) =>
         match validate_all rows with
         | Ok bodies =>
             Processed (Returned HTTP_200_OK
                          {| page_items := bodies; page_total := total;
                             page_skip := skip; page_limit := limit |})
         | Err e => Processed (Unhandled e)
         end
     | Err e => Processed (Unhandled e)
     end).

Definition get_topic (eng : Engine) (db : DB) (id : Z)
  : response TopicRead :=
  match crud.get_topic eng db id with
  | Err e => Unhandled e
  | Ok None => HTTPException HTTP_404_NOT_FOUND "Topic not found."
  | Ok (Some topic) => (respond db HTTP_200_OK topic).2
  end.

Definition delete_topic (eng : Engine) (db : DB) (id : Z)
  : DB * response unit :=
  match crud.get_topic eng db id with
  | Err e => (db, Unhandled e)
  | Ok None => (db, HTTPException HTTP_404_NOT_FOUND "Topic not found.")
  | Ok (Some topic) =>
      (crud.delete_topic db topic, Returned HTTP_204_NO_CONTENT ())
  end.

(** [PostRead] and [PushLogRead] carry exactly the columns of their rows,
    all of which a stored row has: validation returns the row. *)
Definition list_posts (eng : Engine) (db : DB) (skip limit : Z)
    (by_topic : option Z) (by_source : option string)
  : validated (response (PaginatedResponse Post)) :=
  check_page skip limit
    (check_topic_id by_topic
       (match crud.list_posts eng db (Z.to_N skip) (Z.to_N limit)
                              by_topic by_source with
        | Ok (rows, total) =>
            Processed (Returned HTTP_200_OK
                         {| page_items := rows; page_total := total;
                            page_skip := skip; page_limit := limit |})
        | Err e => Processed (Unhandled e)
        end)).

Definition list_logs (eng : Engine) (db : DB) (skip limit : Z)
    (status_filter : option string)
  : validated (response (PaginatedResponse PushLog)) :=
  check_page skip limit
    (match crud.list_push_logs eng db (Z.to_N skip) (Z.to_N limit)
                               status_filter with
     | Ok (rows, total) =>
         Processed (Returned HTTP_200_OK
                      {| page_items := rows; page_total := total;
                         page_skip := skip; page_limit := limit |})
     | Err e => Processed (Unhandled e)
     end).

Definition system_stats (db : DB) : system_stats :=
  crud.get_system_stats db.

End main.

(** ** Vocabulary of the pipeline's properties *)

(** The uids of the persisted posts, in table order. *)
Definition uids (db : DB) : list string := map post_uid (posts db).

(** The session after the pipeline has stored the post of entry
    [title], [content], [link], [uid] for [topic], with its pending log. *)
Definition with_post (session : DB) (now : Z) (topic : Topic)
    (title : string) (content : value) (link uid : string)
    (published_at : Z) : DB :=
  let id := next_id (map post_id (posts session)) in
  {| topics := topics session;
     posts := posts session ++
       [ {| post_id := id;
            post_topic_id := topic_id topic;
            post_title := title;
            post_content :=
              match content with VStr c => Some c | VNone => None end;
            post_link := link;
            post_uid := uid;
            post_published_at := published_at;
            post_is_pushed := false;
            post_created_at := now |} ];
     push_logs := push_logs session ++
       [ {| log_id := next_id (map log_id (push_logs session));
            log_post_id := id;
            log_status := "pending";
            log_message := None;
            log_created_at := now |} ] |}.

Definition bump_duplicates (s : stats) : stats :=
  {| topics_checked := topics_checked s;
     posts_created := posts_created s;
     duplicates := S (duplicates s) |}.

Definition bump_created (s : stats) : stats :=
  {| topics_checked := topics_checked s;
     posts_created := S (posts_created s);
     duplicates := duplicates s |}.

(** An item the INSERT accepts: title, link and uid are strings and the
    topic is a row of [topics]. *)
Definition item_ok (rows : list Topic) (i : Topic * entry) : Prop :=
  topic_id i.1 ∈ map topic_id rows
  ∧ ∃ t l u, entry_title i.2 = VStr t ∧ entry_link i.2 = VStr l
             ∧ entry_uid i.2 = VStr u.

(** What of an item decides how a run treats it: the topic and the
    entry's uid, title and summary (the publication time plays no part). *)
Definition item_key (i : Topic * entry) : Topic * value * value * value :=
  (i.1, entry_uid i.2, entry_title i.2, entry_summary i.2).

Section Vocabulary.

Variable lower : string → string.

(** An item is an entry of the feed of an active topic, as one run meets
    it: the entries of all active topics, topic by topic. *)
Fixpoint fetch_items (net : network) (now : Z) (active : list Topic)
  : result (list (Topic * entry)) :=
  match active with
  | [] => Ok []
  | topic :: rest =>
      entries ← (fetch_feed lower net now (topic_source topic)
                            (topic_feed_url topic)).2;;;
      items ← fetch_items net now rest;;;
      Ok (map (pair topic) entries ++ items)
  end.

Definition item_keep (i : Topic * entry) : bool :=
  _should_keep_entry lower i.2 (topic_keywords i.1).

Definition item_uid (i : Topic * entry) : value := entry_uid i.2.

Definition persisted (db : DB) (i : Topic * entry) : bool :=
  bool_decide (item_uid i ∈ map VStr (uids db)).

(** The inner loop body run over a list of items. *)
Fixpoint ingest_items (now : Z) (items : list (Topic * entry))
    (st : DB * stats) : result (DB * stats) :=
  match items with
  | [] => Ok st
  | (topic, e) :: rest =>
      st ← ingest_entry lower now topic st e;;;
      ingest_items now rest st
  end.

End Vocabulary.

(** ** Scenarios

    Concrete feeds and tables, after the repository's tests, on which the
    model is evaluated with the ASCII lowering. *)
Module Scenario.

(** 1970-01-01T00:00:00, as [feedparser] hands it over. *)
Definition epoch : struct_time :=
  {| tm_year := 1970; tm_mon := 1; tm_mday := 1;
     tm_hour := 0; tm_min := 0; tm_sec := 0 |}.

Definition raw (id title summary link : string) : raw_entry :=
  {| raw_link := Some (VStr link);
     raw_id := Some (VStr id);
     raw_guid := None;
     raw_title := Some (VStr title);
     raw_summary := Some (VStr summary);
     raw_content := None;
     raw_published_parsed := Some epoch;
     raw_updated_parsed := None;
     raw_created_parsed := None |}.

Definition python_topic : Topic :=
  {| topic_id := 1;
     topic_name := "V2EX Python";
     topic_source := "V2EX";
     topic_feed_url := "https://www.v2ex.com/rss";
     topic_keywords := Some ["python"];
     topic_is_active := true;
     topic_created_at := 100;
     topic_updated_at := 100 |}.

Definition nodeseek_topic : Topic :=
  {| topic_id := 2;
     topic_name := "NodeSeek";
     topic_source := "nodeseek";
     topic_feed_url := "https://www.nodeseek.com/rss";
     topic_keywords := Some [];
     topic_is_active := true;
     topic_created_at := 100;
     topic_updated_at := 100 |}.

Definition zero (checked : nat) : stats :=
  {| topics_checked := checked; posts_created := 0; duplicates := 0 |}.

(** One topic, no post yet. *)
Definition db0 : DB :=
  {| topics := [python_topic]; posts := []; push_logs := [] |}.

Definition python_release : raw_entry :=
  raw "A" "Python release" "Python and FastAPI updates"
      "https://example.com/python".

Definition unrelated : raw_entry :=
  raw "B" "Unrelated" "Random news" "https://example.com/other".

(** The feed of the specification's scenario: entries A and B. *)
Definition feed_ab : network :=
  fun _ => Ok {| feed_entries := Some [python_release; unrelated] |}.

(** A feed that carries the uid A twice: first on an entry the keyword
    rejects, then on one it accepts. *)
Definition unrelated_a : raw_entry :=
  raw "A" "Unrelated" "Random news" "https://example.com/other".

Definition feed_aa : network :=
  fun _ => Ok {| feed_entries := Some [unrelated_a; python_release] |}.

(** What the normalizer makes of [unrelated_a]. *)
Definition unrelated_a_entry : entry :=
  {| entry_title := VStr "Unrelated";
     entry_link := VStr "https://example.com/other";
     entry_summary := VStr "Random news";
     entry_uid := VStr "A";
     entry_published_at := 0 |}.

(** The table after entry A was ingested at time 200. *)
Definition db1 : DB :=
  with_post db0 200 python_topic "Python release"
    (VStr "Python and FastAPI updates") "https://example.com/python" "A" 0.

(** Two topics on the same feed: one filtered by keyword, one accepting
    everything; and the tables after their first run at time 200. *)
Definition all_topic : Topic :=
  {| topic_id := 2;
     topic_name := "V2EX everything";
     topic_source := "v2ex";
     topic_feed_url := "https://www.v2ex.com/rss";
     topic_keywords := Some [];
     topic_is_active := true;
     topic_created_at := 100;
     topic_updated_at := 100 |}.

Definition db_shared0 : DB :=
  {| topics := [python_topic; all_topic]; posts := []; push_logs := [] |}.

Definition db_shared1 : DB :=
  with_post
    (with_post db_shared0 200 python_topic "Python release"
       (VStr "Python and FastAPI updates") "https://example.com/python" "A" 0)
    200 all_topic "Unrelated" (VStr "Random news")
    "https://example.com/other" "B" 0.

(** Two topics; the second topic's feed is down. *)
Definition db_two : DB :=
  {| topics := [python_topic; nodeseek_topic]; posts := []; push_logs := [] |}.

Definition feed_down : network :=
  fun url =>
    if String.eqb url "https://www.nodeseek.com/rss"
    then Err (HTTPError "503 Service Unavailable")
    else feed_ab url.

(** 10000-01-01T00:00:00, one second past the last instant of [datetime];
    and an entry dated so. *)
Definition year_10000 : struct_time :=
  {| tm_year := 10000; tm_mon := 1; tm_mday := 1;
     tm_hour := 0; tm_min := 0; tm_sec := 0 |}.

Definition far_future : raw_entry :=
  {| raw_link := Some (VStr "https://example.com/future");
     raw_id := Some (VStr "C");
     raw_guid := None;
     raw_title := Some (VStr "Python in the year 10000");
     raw_summary := Some (VStr "Still going");
     raw_content := None;
     raw_published_parsed := Some year_10000;
     raw_updated_parsed := Some epoch;
     raw_created_parsed := None |}.

(** The last day of [datetime]'s calendar, at hour 24: [calendar.timegm]
    accepts it and [datetime.fromtimestamp] does not. *)
Definition hour_24 : struct_time :=
  {| tm_year := 9999; tm_mon := 12; tm_mday := 31;
     tm_hour := 24; tm_min := 0; tm_sec := 0 |}.

(** Two topics; the second topic's feed carries the entry of year 10000
    after a sound one. *)
Definition feed_far_future : network :=
  fun url =>
    if String.eqb url "https://www.nodeseek.com/rss"
    then Ok {| feed_entries := Some [unrelated; far_future] |}
    else feed_ab url.

(** A second topic under the name of the first. *)
Definition same_name : TopicCreate :=
  {| create_name := "V2EX Python";
     create_source := "v2ex";
     create_feed_url := "https://www.v2ex.com/feed";
     create_keywords := [];
     create_is_active := true |}.

(** The update payload [{"is_active": false}]. *)
Definition deactivate : TopicUpdate :=
  {| update_name := None;
     update_source := None;
     update_feed_url := None;
     update_keywords := None;
     update_is_active := Some (Some false) |}.

Definition deactivated : Topic :=
  {| topic_id := 1;
     topic_name := "V2EX Python";
     topic_source := "V2EX";
     topic_feed_url := "https://www.v2ex.com/rss";
     topic_keywords := Some ["python"];
     topic_is_active := false;
     topic_created_at := 100;
     topic_updated_at := 300 |}.

Definition db_deactivated : DB :=
  {| topics := [deactivated]; posts := []; push_logs := [] |}.

End Scenario.

(** ** Vocabulary of the tables' constraints and of a run's trace *)

(** The constraints [models.py] declares on the three tables: primary
    keys, the unique topic name and post uid, and the two foreign keys. *)
Record db_wf (db : DB) : Prop := {
  wf_topic_ids : NoDup (map topic_id (topics db));
  wf_topic_names : NoDup (map topic_name (topics db));
  wf_post_ids : NoDup (map post_id (posts db));
  wf_post_uids : NoDup (uids db);
  wf_log_ids : NoDup (map log_id (push_logs db));
  wf_post_topic :
    ∀ p, p ∈ posts db → post_topic_id p ∈ map topic_id (topics db);
  wf_log_post :
    ∀ l, l ∈ push_logs db → log_post_id l ∈ map post_id (posts db);
}.

(** What every engine does under [ORDER BY created_at DESC]: it returns the
    rows it was given, newest first. *)
Record engine_sorts (eng : Engine) : Prop := {
  posts_sorted :
    ∀ rows, StronglySorted newest_post_first (posts_newest_first eng rows);
  posts_same_rows : ∀ rows, posts_newest_first eng rows ≡ₚ rows;
  logs_sorted :
    ∀ rows, StronglySorted newest_log_first (logs_newest_first eng rows);
  logs_same_rows : ∀ rows, logs_newest_first eng rows ≡ₚ rows;
}.

(** The driver can bind the page asked for, and the topic asked for. *)
Definition page_binds (eng : Engine) (skip limit : N) : bool :=
  binds_count eng (Z.of_N skip) && binds_count eng (Z.of_N limit).

Definition key_binds (eng : Engine) (by_topic : option Z) : bool :=
  match by_topic with
  | Some id => binds_key eng id
  | None => true
  end.

(** The parsed date [_entry_to_dict] converts: the first one present. *)
Definition chosen_date (e : raw_entry) : option struct_time :=
  time_or (time_or (raw_published_parsed e) (raw_updated_parsed e))
          (raw_created_parsed e).

(** The dates [datetime] can hold: [calendar.timegm] returns on them, an
    instant within [datetime]'s range. *)
Definition date_in_range (t : struct_time) : Prop :=
  ∃ seconds, timegm t = Ok seconds
             ∧ MIN_TIMESTAMP ≤ seconds ≤ MAX_TIMESTAMP.

(** The entries the normalizer accepts. *)
Definition date_accepted (e : raw_entry) : Prop :=
  match chosen_date e with
  | Some t => date_in_range t
  | None => True
  end.

(** The dates of the calendar up to the year 9998, with the fields of a
    [struct_time] in their documented ranges. *)
Definition calendar_date (t : struct_time) : Prop :=
  1 ≤ tm_year t ≤ 9998 ∧ 1 ≤ tm_mon t ≤ 12 ∧ 1 ≤ tm_mday t ≤ 31
  ∧ 0 ≤ tm_hour t ≤ 23 ∧ 0 ≤ tm_min t ≤ 59 ∧ 0 ≤ tm_sec t ≤ 61.

(** The string a value holds; the empty string for [None]. *)
Definition text_of (v : value) : string :=
  match v with
  | VStr s => s
  | VNone => ""
  end.

(** The session after the posts of the items [kept] were stored, in order. *)
Fixpoint store_all (now : Z) (session : DB) (kept : list (Topic * entry))
  : DB :=
  match kept with
  | [] => session
  | (topic, e) :: rest =>
      store_all now
        (with_post session now topic (text_of (entry_title e))
           (entry_summary e) (text_of (entry_link e)) (text_of (entry_uid e))
           (entry_published_at e))
        rest
  end.

(** A stored post carries the fields of the item it was made from. *)
Definition post_of_item (now : Z) (p : Post) (i : Topic * entry) : Prop :=
  post_topic_id p = topic_id i.1
  ∧ VStr (post_title p) = entry_title i.2
  ∧ VStr (post_link p) = entry_link i.2
  ∧ VStr (post_uid p) = entry_uid i.2
  ∧ post_content p
    = match entry_summary i.2 with VStr c => Some c | VNone => None end
  ∧ post_published_at p = entry_published_at i.2
  ∧ post_is_pushed p = false
  ∧ post_created_at p = now.

(** The log the pipeline attaches to a post it stored. *)
Definition log_of_post (now : Z) (l : PushLog) (p : Post) : Prop :=
  log_post_id l = post_id p
  ∧ log_status l = "pending"
  ∧ log_message l = None
  ∧ log_created_at l = now.

(** A topic that accepts every entry: null or empty keywords. *)
Definition accepts_all (topic : Topic) : Prop :=
  topic_keywords topic = None ∨ topic_keywords topic = Some [].

(** The filter of [list_posts], row by row: the post belongs to the topic
    asked for and its topic's source is the one asked for. *)
Definition post_matches (ts : list Topic) (by_topic : option Z)
    (by_source : option string) (p : Post) : bool :=
  match by_topic with
  | Some id => bool_decide (post_topic_id p = id)
  | None => true
  end &&
  match by_source with
  | Some source =>
      existsb (fun t => bool_decide (topic_id t = post_topic_id p) &&
                        bool_decide (topic_source t = source)) ts
  | None => true
  end.

(** The filter of [list_push_logs], row by row. *)
Definition log_matches (status : option string) (l : PushLog) : bool :=
  match status with
  | Some st => bool_decide (log_status l = st)
  | None => true
  end.

(** ** More scenarios *)
Module Fixture.

Definition post (id owner : Z) (uid : string) (created : Z) : Post :=
  {| post_id := id; post_topic_id := owner; post_title := uid;
     post_content := None; post_link := uid; post_uid := uid;
     post_published_at := created; post_is_pushed := false;
     post_created_at := created |}.

Definition log (id owner : Z) (status : string) (created : Z) : PushLog :=
  {| log_id := id; log_post_id := owner; log_status := status;
     log_message := None; log_created_at := created |}.

Definition topic (id : Z) (name source : string) (active : bool) : Topic :=
  {| topic_id := id; topic_name := name; topic_source := source;
     topic_feed_url := "https://example.com/rss";
     topic_keywords := Some []; topic_is_active := active;
     topic_created_at := 100; topic_updated_at := 100 |}.

(** Two topics and three posts, after the listing test of the repository. *)
Definition listing : DB :=
  {| topics := [topic 1 "V2EX Hot" "v2ex" true;
                topic 2 "Linux Do" "linux.do" false];
     posts := [post 1 1 "v2ex:1" 1000; post 2 1 "v2ex:2" 1060;
               post 3 2 "linux:1" 1120];
     push_logs := [log 1 1 "pending" 1000; log 2 2 "success" 1060;
                   log 3 3 "pending" 1120] |}.

End Fixture.

(** * Properties *)

(** ** Substring containment *)

Lemma prefix_true_iff (needle hay : string) :
  String.prefix needle hay = true ↔ ∃ post, hay = needle +:+ post.
Proof.
  revert hay. induction needle as [|a needle IH]; intros hay; simpl.
  - destruct hay; split; eauto.
  - destruct hay as [|b hay]; simpl.
    + split; [discriminate | intros [post Hp]].
      change (String a needle +:+ post) with (String a (needle +:+ post)) in Hp.
      discriminate.
    + destruct (Ascii.ascii_dec a b) as [->|Hne].
      * rewrite IH. split; intros [post Hp]; exists post;
          change (String b needle +:+ post) with (String b (needle +:+ post)) in *;
          congruence.
      * split; [discriminate|]. intros [post Hp].
        change (String a needle +:+ post) with (String a (needle +:+ post)) in Hp.
        congruence.
Qed.

Lemma contains_unfold (needle hay : string) :
  contains needle hay =
  if String.prefix needle hay then true
  else match hay with
       | "" => false
       | String _ hay' => contains needle hay'
       end.
Proof. destruct hay; reflexivity. Qed.

Lemma contains_true_iff (needle hay : string) :
  contains needle hay = true ↔ is_substring needle hay.
Proof.
  unfold is_substring. split.
  - induction hay as [|c hay IH]; rewrite contains_unfold;
      destruct (String.prefix needle _) eqn:Hp; try discriminate.
    + intros _. apply prefix_true_iff in Hp as [post ->]. by exists "", post.
    + intros _. apply prefix_true_iff in Hp as [post ->]. by exists "", post.
    + intros Hc. destruct (IH Hc) as (pre & post & ->).
      by exists (String c pre), post.
  - intros (pre & post & ->). induction pre as [|c pre IH].
    + change ("" +:+ needle +:+ post) with (needle +:+ post).
      rewrite contains_unfold.
      assert (String.prefix needle (needle +:+ post) = true) as ->; [|done].
      apply prefix_true_iff. eauto.
    + change (String c pre +:+ needle +:+ post)
        with (String c (pre +:+ needle +:+ post)).
      rewrite contains_unfold. by destruct (String.prefix _ _).
Qed.

Section Properties.

Variable lower : string → string.

(** ** The keyword filter *)

(** C2: [match_keywords] accepts every text, null included, under an empty
    keyword list; rejects a null or empty text under a non-empty list; and
    otherwise accepts exactly when some keyword, lowered, is a substring of
    the lowered text. *)
Theorem match_keywords_spec (text : value) (k : string) (ks : list string)
    (c : ascii) (t : string) :
  match_keywords lower text [] = true
  ∧ match_keywords lower VNone (k :: ks) = false
  ∧ match_keywords lower (VStr "") (k :: ks) = false
  ∧ (match_keywords lower (VStr (String c t)) (k :: ks) = true ↔
     ∃ keyword, keyword ∈ k :: ks
                ∧ is_substring (lower keyword) (lower (String c t))).
Proof.
  repeat split; try reflexivity.
  - unfold match_keywords. rewrite existsb_exists.
    intros (kw & Hin & Hc). exists kw. split.
    + by apply list_elem_of_In.
    + by apply contains_true_iff.
  - intros (kw & Hin & Hsub). unfold match_keywords. apply existsb_exists.
    exists kw. split.
    + by apply list_elem_of_In.
    + by apply contains_true_iff.
Qed.

(** C9: a null keyword set is treated as an empty one, and both keep every
    entry. *)
Theorem should_keep_entry_null_keywords (e : entry) :
  _should_keep_entry lower e None = _should_keep_entry lower e (Some [])
  ∧ _should_keep_entry lower e None = true.
Proof. split; reflexivity. Qed.

(** ** The feed normalizer *)

Lemma synthesized_uid_nonempty (source title : string) :
  ∃ c s, source +:+ ":" +:+ title = String c s.
Proof. destruct source as [|c source]; [by exists ":"%char, title|]. by eexists _, _. Qed.

Lemma truthy_str (v : value) :
  truthy v = true → ∃ c s, v = VStr (String c s).
Proof. destruct v as [|[|c s]]; try discriminate. eauto. Qed.

Lemma py_or_str (a : value) (s : string) : ∃ t, py_or a (VStr s) = VStr t.
Proof.
  unfold py_or. destruct (truthy a) eqn:Ha; [|eauto].
  apply truthy_str in Ha as (c & t & ->). eauto.
Qed.

Lemma bind_ok {A B} (r : result A) (k : A → result B) (b : B) :
  bind r k = Ok b ↔ ∃ a, r = Ok a ∧ k a = Ok b.
Proof.
  destruct r as [a|err]; simpl.
  - split; [eauto|]. by intros (a' & [= ->] & ?).
  - split; [done|]. by intros (a' & ? & ?).
Qed.

Lemma as_c_int_returns (z v : Z) :
  as_c_int z = Ok v ↔ v = z ∧ - 2 ^ 31 ≤ z < 2 ^ 31.
Proof.
  unfold as_c_int. destruct (fits_int32 z) eqn:H32.
  - revert H32. unfold fits_int32.
    rewrite andb_true_iff, Z.leb_le, Z.ltb_lt. intros H32.
    split; [by intros [= ->] | by intros [-> _]].
  - revert H32. unfold fits_int32.
    rewrite andb_false_iff, Z.leb_gt, Z.ltb_ge. intros H32.
    split; [|intros [_ ?]; lia].
    destruct (negb (fits_int64 z)); [done|]. by destruct (0 <? z).
Qed.

Lemma first_of_month_ordinal_returns (year month : Z) :
  (∃ ordinal, first_of_month_ordinal year month = Ok ordinal) ↔
  MINYEAR ≤ year ≤ MAXYEAR ∧ 1 ≤ month ≤ 12.
Proof.
  unfold first_of_month_ordinal. split.
  - intros (ordinal & (y & [-> _]%as_c_int_returns
                         & (m & [-> _]%as_c_int_returns & Hrest)%bind_ok)%bind_ok).
    destruct (negb ((MINYEAR <=? year) && (year <=? MAXYEAR))) eqn:Hyear;
      [done|].
    destruct (negb ((1 <=? month) && (month <=? 12))) eqn:Hmon; [done|].
    apply negb_false_iff, andb_true_iff in Hyear as [H1 H2].
    apply negb_false_iff, andb_true_iff in Hmon as [H3 H4].
    apply Z.leb_le in H1, H2, H3, H4. done.
  - intros [Hy Hm].
    assert (as_c_int year = Ok year) as ->
      by (apply as_c_int_returns; unfold MINYEAR, MAXYEAR in Hy; lia).
    assert (as_c_int month = Ok month) as ->
      by (apply as_c_int_returns; lia).
    simpl.
    rewrite (proj2 (negb_false_iff _))
      by (apply andb_true_iff; split; apply Z.leb_le; lia).
    rewrite (proj2 (negb_false_iff _))
      by (apply andb_true_iff; split; apply Z.leb_le; lia).
    eauto.
Qed.

(** [calendar.timegm] returns exactly on a year and a month of the
    calendar. *)
Lemma timegm_returns (t : struct_time) :
  (∃ seconds, timegm t = Ok seconds) ↔
  MINYEAR ≤ tm_year t ≤ MAXYEAR ∧ 1 ≤ tm_mon t ≤ 12.
Proof.
  rewrite <- first_of_month_ordinal_returns. unfold timegm.
  destruct (first_of_month_ordinal _ _) as [ordinal|err]; simpl.
  - split; [intros _|]; eauto.
  - split; [by intros [? ?] | by intros [? ?]].
Qed.

Lemma fromtimestamp_returns (seconds p : Z) :
  fromtimestamp seconds = Ok p ↔
  p = seconds ∧ MIN_TIMESTAMP ≤ seconds ≤ MAX_TIMESTAMP.
Proof.
  unfold fromtimestamp.
  destruct (fits_int64 seconds) eqn:H64; simpl.
  2:{ split; [done|]. intros [_ Hr]. revert H64. unfold fits_int64.
      rewrite andb_false_iff, Z.leb_gt, Z.ltb_ge.
      unfold MIN_TIMESTAMP, MAX_TIMESTAMP in Hr. lia. }
  destruct ((MIN_GMTIME <=? seconds) && (seconds <=? MAX_GMTIME)) eqn:Hgm;
    simpl.
  2:{ split; [done|]. intros [_ Hr]. revert Hgm.
      rewrite andb_false_iff, !Z.leb_gt.
      unfold MIN_TIMESTAMP, MAX_TIMESTAMP, MIN_GMTIME, MAX_GMTIME in *. lia. }
  destruct ((MIN_TIMESTAMP <=? seconds) && (seconds <=? MAX_TIMESTAMP))
    eqn:Hr.
  - apply andb_true_iff in Hr as [H1 H2]. apply Z.leb_le in H1, H2.
    split; [by intros [= ->] | by intros [-> _]].
  - split; [done|]. intros [_ [H1 H2]].
    apply andb_false_iff in Hr as [H|H]; apply Z.leb_gt in H; lia.
Qed.

(** The conversion of a parsed date returns exactly on the dates
    [datetime] can hold, and then returns the epoch seconds of the date. *)
Lemma convert_returns (t : struct_time) (p : Z) :
  (seconds ← timegm t;;; fromtimestamp seconds) = Ok p ↔
  timegm t = Ok p ∧ MIN_TIMESTAMP ≤ p ≤ MAX_TIMESTAMP.
Proof.
  rewrite bind_ok. split.
  - intros (seconds & Ht & [-> Hr]%fromtimestamp_returns). done.
  - intros [Ht Hr]. exists p. split; [done|]. by apply fromtimestamp_returns.
Qed.

Lemma days_before_month_bounds (year month : Z) :
  1 ≤ month ≤ 12 → 0 ≤ _days_before_month year month ≤ 335.
Proof.
  intros Hm. unfold _days_before_month.
  assert (month = 1 ∨ month = 2 ∨ month = 3 ∨ month = 4 ∨ month = 5
          ∨ month = 6 ∨ month = 7 ∨ month = 8 ∨ month = 9 ∨ month = 10
          ∨ month = 11 ∨ month = 12) as Hcases by lia.
  destruct (_is_leap year);
    repeat (destruct Hcases as [->|Hcases]; [simpl; lia|]);
    subst; simpl; lia.
Qed.

(** Every date of the calendar up to the year 9998 is one [datetime] can
    hold. *)
Lemma calendar_date_in_range (t : struct_time) :
  calendar_date t → date_in_range t.
Proof.
  intros (Hy & Hm & Hd & Hh & Hmin & Hs). unfold date_in_range.
  destruct (proj2 (timegm_returns t)) as [seconds Ht].
  { unfold MINYEAR, MAXYEAR. lia. }
  exists seconds. split; [done|].
  unfold timegm, first_of_month_ordinal in Ht.
  assert (as_c_int (tm_year t) = Ok (tm_year t)) as Hcy
    by (apply as_c_int_returns; lia).
  assert (as_c_int (tm_mon t) = Ok (tm_mon t)) as Hcm
    by (apply as_c_int_returns; lia).
  rewrite Hcy, Hcm in Ht. cbn [bind] in Ht.
  rewrite (proj2 (negb_false_iff _)) in Ht
    by (apply andb_true_iff; split; apply Z.leb_le;
        unfold MINYEAR, MAXYEAR; lia).
  rewrite (proj2 (negb_false_iff _)) in Ht
    by (apply andb_true_iff; split; apply Z.leb_le; lia).
  simpl in Ht. injection Ht as <-.
  pose proof (days_before_month_bounds (tm_year t) (tm_mon t) Hm) as Hdm.
  unfold _days_before_year, _EPOCH_ORD, MIN_TIMESTAMP, MAX_TIMESTAMP.
  generalize dependent (_days_before_month (tm_year t) (tm_mon t)).
  intros dm Hdm.
  Z.to_euclidean_division_equations. lia.
Qed.

(** The normalizer returns exactly when the date it converts is absent or
    one [datetime] can hold. *)
Lemma entry_to_dict_returns (e : raw_entry) (source : string) (now : Z) :
  (∃ n, _entry_to_dict e source now = Ok n) ↔ date_accepted e.
Proof.
  unfold _entry_to_dict, date_accepted, chosen_date.
  destruct (time_or _ _) as [t|].
  - split.
    + intros (n & (p & Hp & _)%bind_ok). apply convert_returns in Hp.
      by exists p.
    + intros (p & Ht & Hr).
      assert ((seconds ← timegm t;;; fromtimestamp seconds) = Ok p) as ->
        by by apply convert_returns.
      simpl. eauto.
  - simpl. split; [done | eauto].
Qed.

(** The fields of a normalized entry. *)
Lemma entry_to_dict_fields (e : raw_entry) (source : string) (now : Z)
    (n : entry) :
  _entry_to_dict e source now = Ok n →
  entry_title n = py_or (get (raw_title e)) (VStr "")
  ∧ entry_link n = py_or (py_or (get (raw_link e)) (get (raw_id e))) (VStr "")
  ∧ entry_uid n =
      py_or (py_or (py_or (get (raw_id e)) (get (raw_guid e)))
                   (py_or (py_or (get (raw_link e)) (get (raw_id e)))
                          (VStr "")))
            (VStr (source +:+ ":" +:+
                   py_format (get_default (raw_title e) (VStr ""))))
  ∧ entry_published_at n =
      match chosen_date e with
      | Some t => default 0 (match timegm t with Ok p => Some p | Err _ => None end)
      | None => now
      end.
Proof.
  unfold _entry_to_dict, chosen_date.
  intros (p & Hp & [= <-])%bind_ok. simpl. split_and!; try done.
  destruct (time_or _ _) as [t|]; [|by injection Hp].
  apply convert_returns in Hp as [-> _]. done.
Qed.

Lemma entry_uid_cases (e : raw_entry) (source : string) (now : Z)
    (n : entry) :
  _entry_to_dict e source now = Ok n →
  entry_uid n =
    (if truthy (get (raw_id e)) then get (raw_id e)
     else if truthy (get (raw_guid e)) then get (raw_guid e)
     else if truthy (get (raw_link e)) then get (raw_link e)
     else VStr (source +:+ ":" +:+
                py_format (get_default (raw_title e) (VStr "")))).
Proof.
  intros (_ & _ & -> & _)%entry_to_dict_fields.
  destruct e as [l i g ? ? ? ? ? ?]; simpl.
  destruct i as [[|[|? ?]]|], g as [[|[|? ?]]|], l as [[|[|? ?]]|];
    reflexivity.
Qed.

Lemma entry_uid_nonempty (e : raw_entry) (source : string) (now : Z)
    (n : entry) :
  _entry_to_dict e source now = Ok n →
  ∃ c s, entry_uid n = VStr (String c s).
Proof.
  intros Hn. rewrite (entry_uid_cases _ _ _ _ Hn).
  destruct (truthy (get (raw_id e))) eqn:Hid; [by apply truthy_str|].
  destruct (truthy (get (raw_guid e))) eqn:Hguid; [by apply truthy_str|].
  destruct (truthy (get (raw_link e))) eqn:Hlink; [by apply truthy_str|].
  destruct (synthesized_uid_nonempty source
              (py_format (get_default (raw_title e) (VStr "")))) as (c & s & ->).
  eauto.
Qed.

(** C5: the normalizer returns an entry exactly when the parsed date it
    converts is absent or one [datetime] can hold, as is every date of the
    calendar up to the year 9998; the uid of the entry it returns is the id
    when present, else the guid, else the link, else [source:title], and it
    is a non-empty string. *)
Theorem entry_uid_spec (e : raw_entry) (source : string) (now : Z) :
  ((∃ n, _entry_to_dict e source now = Ok n) ↔ date_accepted e)
  ∧ (match chosen_date e with
     | Some t => calendar_date t
     | None => True
     end → ∃ n, _entry_to_dict e source now = Ok n)
  ∧ ∀ n, _entry_to_dict e source now = Ok n →
      entry_uid n =
        (if truthy (get (raw_id e)) then get (raw_id e)
         else if truthy (get (raw_guid e)) then get (raw_guid e)
         else if truthy (get (raw_link e)) then get (raw_link e)
         else VStr (source +:+ ":" +:+
                    py_format (get_default (raw_title e) (VStr ""))))
      ∧ ∃ c s, entry_uid n = VStr (String c s).
Proof.
  split; [apply entry_to_dict_returns|]. split.
  { intros Hdate. apply entry_to_dict_returns. unfold date_accepted.
    destruct (chosen_date e); [by apply calendar_date_in_range | done]. }
  intros n Hn.
  split; [by eapply entry_uid_cases | by eapply entry_uid_nonempty].
Qed.

Lemma entry_title_str (e : raw_entry) (source : string) (now : Z)
    (n : entry) :
  _entry_to_dict e source now = Ok n → ∃ t, entry_title n = VStr t.
Proof. intros (-> & _)%entry_to_dict_fields. apply py_or_str. Qed.

Lemma entry_link_str (e : raw_entry) (source : string) (now : Z)
    (n : entry) :
  _entry_to_dict e source now = Ok n → ∃ l, entry_link n = VStr l.
Proof. intros (_ & -> & _)%entry_to_dict_fields. apply py_or_str. Qed.

Lemma entry_uid_str (e : raw_entry) (source : string) (now : Z)
    (n : entry) :
  _entry_to_dict e source now = Ok n → ∃ u, entry_uid n = VStr u.
Proof. intros (c & s & ->)%entry_uid_nonempty. eauto. Qed.

(** C10: the title and the link of a normalized entry are strings, never
    null: a missing or null title becomes the empty string, a missing link
    becomes the id, else the empty string.  Hence the INSERT of the Post
    built from a normalized entry never violates NOT NULL, and the row
    carries these strings. *)
Theorem entry_title_link_not_null (e : raw_entry) (source : string)
    (now : Z) (n : entry) :
  _entry_to_dict e source now = Ok n →
  entry_title n =
    (if truthy (get (raw_title e)) then get (raw_title e) else VStr "")
  ∧ entry_link n =
    (if truthy (get (raw_link e)) then get (raw_link e)
     else if truthy (get (raw_id e)) then get (raw_id e) else VStr "")
  ∧ ∃ t l,
      entry_title n = VStr t
      ∧ entry_link n = VStr l
      ∧ (∀ session clock owner,
           match add_post session clock owner (entry_title n)
                   (entry_summary n) (entry_link n) (entry_uid n)
                   (entry_published_at n) with
           | Ok (_, post) => post_title post = t ∧ post_link post = l
           | Err err => err ≠ IntegrityError "NOT NULL constraint failed"
           end)
      ∧ (∀ clock topic st,
           ingest_entry lower clock topic st n
           ≠ Err (IntegrityError "NOT NULL constraint failed")).
Proof.
  intros Hn.
  destruct (entry_to_dict_fields _ _ _ _ Hn) as (Htitle & Hlink & _).
  split; [by rewrite Htitle|]. split.
  { rewrite Hlink. destruct e as [l i ? ? ? ? ? ? ?]; simpl.
    destruct l as [[|[|? ?]]|], i as [[|[|? ?]]|]; reflexivity. }
  destruct (entry_title_str _ _ _ _ Hn) as [t Ht].
  destruct (entry_link_str _ _ _ _ Hn) as [l Hl].
  destruct (entry_uid_str _ _ _ _ Hn) as [u Hu].
  exists t, l. split; [done|]. split; [done|].
  assert (∀ session clock owner,
           match add_post session clock owner (entry_title n)
                   (entry_summary n) (entry_link n) (entry_uid n)
                   (entry_published_at n) with
           | Ok (_, post) => post_title post = t ∧ post_link post = l
           | Err err => err ≠ IntegrityError "NOT NULL constraint failed"
           end) as Hadd.
  { intros session clock owner. rewrite Ht, Hl, Hu. unfold add_post.
    destruct (negb _); [done|]. destruct (bool_decide _); done. }
  split; [exact Hadd|].
  intros clock topic [session s]. unfold ingest_entry.
  destruct (_uid_exists session _) as [[|]|err] eqn:Hex; simpl.
  - done.
  - destruct (negb (_should_keep_entry _ _ _)); [done|].
    specialize (Hadd session clock (topic_id topic)).
    destruct (add_post _ _ _ _ _ _ _ _) as [[session' post]|err]; simpl;
      [done | congruence].
  - unfold _uid_exists in Hex.
    destruct (List.filter _ _) as [|? [|? ?]]; congruence.
Qed.

(** ** Source dispatch *)

Lemma fetchers_lookup (key : string) :
  fetchers !! key =
    if bool_decide (key ∈ ["v2ex"; "nodeseek"; "linux.do"])
    then Some (fun net now feed_url => _fetch_generic_feed net now feed_url key)
    else None.
Proof.
  unfold fetchers.
  destruct (decide (key = "v2ex")) as [->|H1]; [done|].
  destruct (decide (key = "nodeseek")) as [->|H2]; [done|].
  destruct (decide (key = "linux.do")) as [->|H3]; [done|].
  rewrite !lookup_insert_ne, lookup_singleton_ne by done.
  rewrite bool_decide_eq_false_2; [done|].
  rewrite !elem_of_cons, elem_of_nil. intros [?|[?|[?|[]]]]; done.
Qed.

(** C6: the lowered source is looked up among v2ex, nodeseek and linux.do.
    Outside them the call fails with the unsupported-source [ValueError] and
    requests nothing; inside, it issues exactly one request, for the feed
    URL, and normalizes under the matched source name. *)
Theorem fetch_feed_dispatch (net : network) (now : Z)
    (source feed_url : string) :
  fetch_feed lower net now source feed_url =
    if bool_decide (lower source ∈ ["v2ex"; "nodeseek"; "linux.do"]) then
      ([feed_url],
       parsed ← net feed_url;;;
       entries_to_dicts (default [] (feed_entries parsed)) (lower source) now)
    else ([], Err (ValueError ("Unsupported source: " +:+ source))).
Proof.
  unfold fetch_feed. rewrite fetchers_lookup. by destruct (bool_decide _).
Qed.

(** ** The ingest pipeline: one entry *)

Lemma filter_uid_nil (u : string) (ps : list Post) :
  u ∉ map post_uid ps →
  List.filter (fun p => bool_decide (VStr (post_uid p) = VStr u)) ps = [].
Proof.
  induction ps as [|p ps IH]; [done|]. simpl. intros Hnotin.
  apply not_elem_of_cons in Hnotin as [Hne Hnotin].
  rewrite bool_decide_eq_false_2 by congruence. by apply IH.
Qed.

Lemma uid_exists_str (session : DB) (u : string) :
  NoDup (uids session) →
  _uid_exists session (VStr u) = Ok (bool_decide (u ∈ uids session)).
Proof.
  unfold _uid_exists, uids. induction (posts session) as [|p ps IH]; simpl.
  - done.
  - intros [Hnotin Hnd]%NoDup_cons.
    destruct (decide (post_uid p = u)) as [<-|Hne].
    + rewrite (bool_decide_eq_true_2 (VStr _ = VStr _)) by done.
      rewrite filter_uid_nil by done.
      by rewrite bool_decide_eq_true_2 by (apply elem_of_cons; by left).
    + rewrite (bool_decide_eq_false_2 (VStr _ = VStr _)) by congruence.
      rewrite IH by done. f_equal. apply bool_decide_ext.
      rewrite elem_of_cons. split; [tauto|]. intros [->|?]; done.
Qed.

Lemma ingest_entry_duplicate (now : Z) (topic : Topic) (session : DB)
    (s : stats) (e : entry) (u : string) :
  NoDup (uids session) → entry_uid e = VStr u → u ∈ uids session →
  ingest_entry lower now topic (session, s) e
  = Ok (session, bump_duplicates s).
Proof.
  intros Hnd Hu Hin. unfold ingest_entry. rewrite Hu, uid_exists_str by done.
  by rewrite bool_decide_eq_true_2 by done.
Qed.

Lemma ingest_entry_filtered (now : Z) (topic : Topic) (session : DB)
    (s : stats) (e : entry) (u : string) :
  NoDup (uids session) → entry_uid e = VStr u → u ∉ uids session →
  _should_keep_entry lower e (topic_keywords topic) = false →
  ingest_entry lower now topic (session, s) e = Ok (session, s).
Proof.
  intros Hnd Hu Hin Hkeep. unfold ingest_entry.
  rewrite Hu, uid_exists_str by done.
  rewrite bool_decide_eq_false_2 by done. simpl. by rewrite Hkeep.
Qed.

Lemma ingest_entry_created (now : Z) (topic : Topic) (session : DB)
    (s : stats) (e : entry) (t l u : string) :
  NoDup (uids session) → entry_uid e = VStr u → u ∉ uids session →
  _should_keep_entry lower e (topic_keywords topic) = true →
  entry_title e = VStr t → entry_link e = VStr l →
  topic_id topic ∈ map topic_id (topics session) →
  ingest_entry lower now topic (session, s) e
  = Ok (with_post session now topic t (entry_summary e) l u
          (entry_published_at e), bump_created s).
Proof.
  intros Hnd Hu Hin Hkeep Ht Hl Htopic. unfold ingest_entry.
  rewrite Hu, uid_exists_str by done.
  rewrite bool_decide_eq_false_2 by done. simpl. rewrite Hkeep. simpl.
  rewrite Ht, Hl. unfold add_post.
  rewrite bool_decide_eq_true_2 by done. simpl.
  fold (uids session). by rewrite bool_decide_eq_false_2 by done.
Qed.

(** C4: the duplicate check comes first.  An entry whose uid is persisted
    only bumps the duplicates counter, whatever the topic's keywords and the
    entry's text; an entry that is new and fails the keyword filter changes
    nothing; an entry that is new and passes it becomes a Post with a pending
    PushLog; and the posts table changes in no other case. *)
Theorem duplicate_check_precedes_filter (now : Z) (topic : Topic)
    (session : DB) (s : stats) (e : entry) (u : string) :
  NoDup (uids session) →
  entry_uid e = VStr u →
  (u ∈ uids session →
     ingest_entry lower now topic (session, s) e
     = Ok (session, bump_duplicates s))
  ∧ (u ∉ uids session →
     _should_keep_entry lower e (topic_keywords topic) = false →
     ingest_entry lower now topic (session, s) e = Ok (session, s))
  ∧ (∀ t l, u ∉ uids session →
     _should_keep_entry lower e (topic_keywords topic) = true →
     entry_title e = VStr t → entry_link e = VStr l →
     topic_id topic ∈ map topic_id (topics session) →
     ingest_entry lower now topic (session, s) e
     = Ok (with_post session now topic t (entry_summary e) l u
             (entry_published_at e), bump_created s))
  ∧ (∀ session' s',
     ingest_entry lower now topic (session, s) e = Ok (session', s') →
     posts session' ≠ posts session →
     (u ∉ uids session)
     ∧ _should_keep_entry lower e (topic_keywords topic) = true).
Proof.
  intros Hnd Hu. split; [|split; [|split]].
  - by apply ingest_entry_duplicate.
  - by apply ingest_entry_filtered.
  - intros t l. by apply ingest_entry_created.
  - intros session' s' Hrun Hposts.
    destruct (decide (u ∈ uids session)) as [Hin|Hin].
    { rewrite (ingest_entry_duplicate now topic session s e u) in Hrun by done.
      congruence. }
    destruct (_should_keep_entry lower e (topic_keywords topic)) eqn:Hkeep;
      [done|].
    rewrite (ingest_entry_filtered now topic session s e u) in Hrun by done.
    congruence.
Qed.

(** ** The ingest pipeline: the loops *)

Lemma uids_with_post (session : DB) (now : Z) (topic : Topic)
    (t : string) (content : value) (l u : string) (published_at : Z) :
  uids (with_post session now topic t content l u published_at)
  = uids session ++ [u].
Proof. unfold uids, with_post; simpl. by rewrite map_app. Qed.

Lemma persisted_iff (db : DB) (i : Topic * entry) (u : string) :
  item_uid i = VStr u → persisted db i = bool_decide (u ∈ uids db).
Proof.
  intros Hu. unfold persisted. rewrite Hu. apply bool_decide_ext.
  rewrite list_elem_of_fmap. split.
  - intros (u' & Heq & Hin). congruence.
  - intros Hin. by exists u.
Qed.

Lemma ingest_items_app (now : Z) (xs ys : list (Topic * entry))
    (st : DB * stats) :
  ingest_items lower now (xs ++ ys) st
  = (st' ← ingest_items lower now xs st;;; ingest_items lower now ys st').
Proof.
  revert st. induction xs as [|[topic e] xs IH]; intros st; simpl; [done|].
  destruct (ingest_entry lower now topic st e); simpl; [apply IH | done].
Qed.

Lemma ingest_entries_items (now : Z) (topic : Topic) (entries : list entry)
    (st : DB * stats) :
  ingest_entries lower now topic entries st
  = ingest_items lower now (map (pair topic) entries) st.
Proof.
  revert st. induction entries as [|e entries IH]; intros st; simpl; [done|].
  destruct (ingest_entry lower now topic st e); simpl; [apply IH | done].
Qed.

Lemma ingest_items_cons (now : Z) (topic : Topic) (e : entry)
    (items : list (Topic * entry)) (st : DB * stats) :
  ingest_items lower now ((topic, e) :: items) st
  = (st' ← ingest_entry lower now topic st e;;;
     ingest_items lower now items st').
Proof. reflexivity. Qed.

(** A run over acceptable items never fails.  It keeps the uids unique and
    the topics untouched, loses no uid, and leaves every item either
    persisted or rejected by its topic's keywords. *)
Lemma ingest_items_ok (now : Z) (items : list (Topic * entry)) :
  ∀ (session : DB) (s : stats),
    NoDup (uids session) →
    Forall (item_ok (topics session)) items →
    ∃ session' s',
      ingest_items lower now items (session, s) = Ok (session', s')
      ∧ NoDup (uids session')
      ∧ topics session' = topics session
      ∧ topics_checked s' = topics_checked s
      ∧ (∀ u, u ∈ uids session → u ∈ uids session')
      ∧ (∀ i, i ∈ items →
           persisted session' i = true ∨ item_keep lower i = false).
Proof.
  induction items as [|[topic e] items IH]; intros session s Hnd Hok.
  { exists session, s. repeat split; try done. intros i Hi. inversion Hi. }
  apply Forall_cons in Hok as [(Htopic & t & l & u & Ht & Hl & Hu) Hok].
  simpl in Htopic, Ht, Hl, Hu. rewrite ingest_items_cons.
  destruct (decide (u ∈ uids session)) as [Hin|Hin].
  { rewrite (ingest_entry_duplicate now topic session s e u) by done.
    cbn [bind].
    destruct (IH session (bump_duplicates s) Hnd Hok)
      as (session' & s' & Hrun & Hnd' & Htopics & Hchecked & Hmono & Hall).
    exists session', s'. repeat split; try done.
    intros i [->|Hi]%elem_of_cons; [|by apply Hall]. left.
    rewrite (persisted_iff _ _ u) by done.
    apply bool_decide_eq_true_2. by apply Hmono. }
  destruct (_should_keep_entry lower e (topic_keywords topic)) eqn:Hkeep.
  - rewrite (ingest_entry_created now topic session s e t l u) by done.
    cbn [bind].
    set (session1 := with_post session now topic t (entry_summary e) l u
                       (entry_published_at e)).
    assert (NoDup (uids session1)) as Hnd1.
    { unfold session1. rewrite uids_with_post. apply NoDup_app.
      split; [done|]. split; [|apply NoDup_singleton].
      intros x Hx ->%list_elem_of_singleton. done. }
    destruct (IH session1 (bump_created s) Hnd1 Hok)
      as (session' & s' & Hrun & Hnd' & Htopics & Hchecked & Hmono & Hall).
    exists session', s'. repeat split; try done.
    + intros x Hx. apply Hmono. unfold session1. rewrite uids_with_post.
      apply elem_of_app. by left.
    + intros i [->|Hi]%elem_of_cons; [|by apply Hall]. left.
      rewrite (persisted_iff _ _ u) by done.
      apply bool_decide_eq_true_2, Hmono. unfold session1.
      rewrite uids_with_post. apply elem_of_app. right.
      by apply list_elem_of_singleton.
  - rewrite (ingest_entry_filtered now topic session s e u) by done.
    cbn [bind].
    destruct (IH session s Hnd Hok)
      as (session' & s' & Hrun & Hnd' & Htopics & Hchecked & Hmono & Hall).
    exists session', s'. repeat split; try done.
    intros i [->|Hi]%elem_of_cons; [|by apply Hall]. by right.
Qed.

(** A run over items that are all persisted already or rejected by the
    keywords changes nothing and counts the persisted ones as duplicates. *)
Lemma ingest_items_rerun (now : Z) (items : list (Topic * entry)) :
  ∀ (session : DB) (s : stats),
    NoDup (uids session) →
    Forall (item_ok (topics session)) items →
    (∀ i, i ∈ items →
       persisted session i = true ∨ item_keep lower i = false) →
    ingest_items lower now items (session, s)
    = Ok (session,
          {| topics_checked := topics_checked s;
             posts_created := posts_created s;
             duplicates :=
               (duplicates s
                + length (List.filter (persisted session) items))%nat |}).
Proof.
  induction items as [|[topic e] items IH]; intros session s Hnd Hok Hall.
  { simpl. destruct s as [tc pc dup]; simpl. by rewrite Nat.add_0_r. }
  apply Forall_cons in Hok as [(Htopic & t & l & u & Ht & Hl & Hu) Hok].
  simpl in Htopic, Ht, Hl, Hu. rewrite ingest_items_cons.
  cbn [List.filter].
  assert (∀ i, i ∈ items →
            persisted session i = true ∨ item_keep lower i = false) as Hall'.
  { intros i Hi. apply Hall, elem_of_cons. by right. }
  rewrite (persisted_iff session (topic, e) u) by done.
  destruct (decide (u ∈ uids session)) as [Hin|Hin].
  - rewrite (ingest_entry_duplicate now topic session s e u) by done.
    cbn [bind]. rewrite bool_decide_eq_true_2 by done.
    rewrite (IH session (bump_duplicates s)) by done. simpl.
    do 2 f_equal. f_equal. lia.
  - destruct (Hall (topic, e)) as [Hp|Hk]; [apply elem_of_cons; by left|..].
    { rewrite (persisted_iff _ _ u) in Hp by done.
      by apply bool_decide_eq_true_1 in Hp. }
    rewrite (ingest_entry_filtered now topic session s e u) by done.
    cbn [bind]. rewrite bool_decide_eq_false_2 by done.
    by rewrite (IH session s).
Qed.

(** A run over items with pairwise distinct uids, none of them persisted,
    finds no duplicate, creates one post per item that passes the keywords,
    and appends exactly their uids. *)
Lemma ingest_items_fresh (now : Z) (items : list (Topic * entry)) :
  ∀ (session : DB) (s : stats),
    NoDup (uids session) →
    Forall (item_ok (topics session)) items →
    NoDup (map item_uid items) →
    (∀ i, i ∈ items → persisted session i = false) →
    ∃ session',
      ingest_items lower now items (session, s)
      = Ok (session',
            {| topics_checked := topics_checked s;
               posts_created :=
                 (posts_created s
                  + length (List.filter (item_keep lower) items))%nat;
               duplicates := duplicates s |})
      ∧ map VStr (uids session')
        = map VStr (uids session)
          ++ map item_uid (List.filter (item_keep lower) items).
Proof.
  induction items as [|[topic e] items IH]; intros session s Hnd Hok Huniq Hnew.
  { exists session. simpl. rewrite app_nil_r, Nat.add_0_r. by destruct s. }
  apply Forall_cons in Hok as [(Htopic & t & l & u & Ht & Hl & Hu) Hok].
  simpl in Htopic, Ht, Hl, Hu.
  apply NoDup_cons in Huniq as [Hfresh Huniq].
  change (item_uid (topic, e)) with (entry_uid e) in Hfresh.
  assert (u ∉ uids session) as Hin.
  { assert (persisted session (topic, e) = false) as Hp
      by (apply Hnew, elem_of_cons; by left).
    rewrite (persisted_iff _ _ u) in Hp by done.
    by apply bool_decide_eq_false_1 in Hp. }
  rewrite ingest_items_cons. cbn [List.filter].
  change (item_keep lower (topic, e))
    with (_should_keep_entry lower e (topic_keywords topic)).
  destruct (_should_keep_entry lower e (topic_keywords topic)) eqn:Hkeep.
  - rewrite (ingest_entry_created now topic session s e t l u) by done.
    cbn [bind].
    set (session1 := with_post session now topic t (entry_summary e) l u
                       (entry_published_at e)).
    assert (uids session1 = uids session ++ [u]) as Huids1
      by apply uids_with_post.
    destruct (IH session1 (bump_created s)) as (session' & Hrun & Huids');
      try done.
    { rewrite Huids1. apply NoDup_app. split; [done|].
      split; [|apply NoDup_singleton].
      intros x Hx ->%list_elem_of_singleton. done. }
    { intros i Hi. unfold persisted. apply bool_decide_eq_false_2.
      rewrite Huids1, map_app. intros [Hold|Hhead]%elem_of_app.
      - assert (persisted session i = false) as Hp
          by (apply Hnew, elem_of_cons; by right).
        unfold persisted in Hp. by apply bool_decide_eq_false_1 in Hp.
      - apply list_elem_of_singleton in Hhead. apply Hfresh.
        rewrite Hu, <- Hhead. apply list_elem_of_fmap. by exists i. }
    exists session'. rewrite Hrun. split.
    + simpl. do 2 f_equal. f_equal. lia.
    + rewrite Huids', Huids1, map_app. simpl. rewrite <- app_assoc.
      change (item_uid (topic, e)) with (entry_uid e). by rewrite Hu.
  - rewrite (ingest_entry_filtered now topic session s e u) by done.
    cbn [bind]. apply IH; try done.
    intros i Hi. apply Hnew, elem_of_cons. by right.
Qed.

(** ** What a fetch returns *)

Lemma entries_to_dicts_ok (raws : list raw_entry) (source : string)
    (now : Z) :
  ∀ entries,
    entries_to_dicts raws source now = Ok entries →
    Forall2 (fun raw n => _entry_to_dict raw source now = Ok n) raws entries.
Proof.
  induction raws as [|raw raws IH]; intros entries; simpl.
  { intros [= <-]. constructor. }
  intros (n & Hn & (ns & Hns & [= <-])%bind_ok)%bind_ok.
  constructor; [done | by apply IH].
Qed.

(** The comprehension fails exactly when some entry fails to convert. *)
Lemma entries_to_dicts_fails (raws : list raw_entry) (source : string)
    (now : Z) :
  (∃ err, entries_to_dicts raws source now = Err err) ↔
  ∃ raw err, raw ∈ raws ∧ _entry_to_dict raw source now = Err err.
Proof.
  induction raws as [|raw raws IH]; simpl.
  { split; [by intros [? ?] | by intros (? & ? & ?%elem_of_nil & _)]. }
  destruct (_entry_to_dict raw source now) as [n|err0] eqn:Hn; simpl.
  - destruct (entries_to_dicts raws source now) as [ns|err1]; simpl.
    + split; [by intros [? ?]|].
      intros (raw' & err & [->|Hin]%elem_of_cons & Hraw); [congruence|].
      destruct (proj2 IH) as [? ?]; [eauto | done].
    + split; [|eauto]. intros _.
      destruct (proj1 IH) as (raw' & err & Hin & Hraw); [eauto|].
      exists raw', err. split; [|done]. apply elem_of_cons. by right.
  - split; [|eauto]. intros _. exists raw, err0.
    split; [|done]. apply elem_of_cons. by left.
Qed.

(** The clock only sets the date of an entry that carries none. *)
Lemma entry_to_dict_clock (e : raw_entry) (source : string) (now now' : Z)
    (n : entry) :
  _entry_to_dict e source now = Ok n →
  ∃ n', _entry_to_dict e source now' = Ok n'
        ∧ entry_title n' = entry_title n
        ∧ entry_link n' = entry_link n
        ∧ entry_summary n' = entry_summary n
        ∧ entry_uid n' = entry_uid n.
Proof.
  unfold _entry_to_dict. intros (p & Hp & [= <-])%bind_ok.
  destruct (time_or _ _) as [t|].
  - rewrite Hp. simpl. eauto 10.
  - simpl. eauto 10.
Qed.

Lemma entries_to_dicts_clock (raws : list raw_entry) (source : string)
    (now now' : Z) :
  ∀ entries,
    entries_to_dicts raws source now = Ok entries →
    ∃ entries',
      entries_to_dicts raws source now' = Ok entries'
      ∧ Forall2 (fun n' n => entry_title n' = entry_title n
                             ∧ entry_link n' = entry_link n
                             ∧ entry_summary n' = entry_summary n
                             ∧ entry_uid n' = entry_uid n) entries' entries.
Proof.
  induction raws as [|raw raws IH]; intros entries; simpl.
  { intros [= <-]. exists []. split; [done | constructor]. }
  intros (n & Hn & (ns & Hns & [= <-])%bind_ok)%bind_ok.
  destruct (entry_to_dict_clock _ _ _ now' _ Hn) as (n' & -> & Hsame).
  destruct (IH _ Hns) as (ns' & -> & Hrest). simpl.
  exists (n' :: ns'). split; [done | by constructor].
Qed.

Lemma fetch_feed_entries (net : network) (now : Z) (source feed_url : string)
    (entries : list entry) :
  (fetch_feed lower net now source feed_url).2 = Ok entries →
  ∃ raws, entries_to_dicts raws (lower source) now = Ok entries
          ∧ ∀ now', (fetch_feed lower net now' source feed_url).2
                    = entries_to_dicts raws (lower source) now'.
Proof.
  unfold fetch_feed. rewrite fetchers_lookup.
  destruct (bool_decide _) eqn:Hsrc; [|done].
  simpl. destruct (net feed_url) as [parsed|err] eqn:Hnet; [|done]. simpl.
  intros Hentries. exists (default [] (feed_entries parsed)). by split.
Qed.

(** The three ways a fetch fails: the source is not supported, the request
    or the parse fails, or an entry of the feed fails to convert. *)
Lemma fetch_feed_fails (net : network) (now : Z) (source feed_url : string) :
  (∃ e, (fetch_feed lower net now source feed_url).2 = Err e) ↔
  lower source ∉ ["v2ex"; "nodeseek"; "linux.do"]
  ∨ (∃ err, net feed_url = Err err)
  ∨ (∃ parsed raw err,
       lower source ∈ ["v2ex"; "nodeseek"; "linux.do"]
       ∧ net feed_url = Ok parsed
       ∧ raw ∈ default [] (feed_entries parsed)
       ∧ _entry_to_dict raw (lower source) now = Err err).
Proof.
  unfold fetch_feed. rewrite fetchers_lookup.
  destruct (bool_decide _) eqn:Hsrc; simpl.
  - apply bool_decide_eq_true_1 in Hsrc.
    destruct (net feed_url) as [parsed|err] eqn:Hnet; simpl.
    + rewrite entries_to_dicts_fails. split.
      * intros (raw & err & Hin & Hraw). right. right.
        by exists parsed, raw, err.
      * intros [Hno|[[err Herr]|(parsed' & raw & err & _ & [= <-] & Hin & Hraw)]];
          [done | done | eauto].
    + split; [|eauto]. intros _. right. left. eauto.
  - apply bool_decide_eq_false_1 in Hsrc. split; [by left | eauto].
Qed.

Lemma fetched_entries_ok (net : network) (now : Z) (rows : list Topic)
    (topic : Topic) (entries : list entry) :
  topic_id topic ∈ map topic_id rows →
  (fetch_feed lower net now (topic_source topic) (topic_feed_url topic)).2
  = Ok entries →
  Forall (item_ok rows) (map (pair topic) entries).
Proof.
  intros Hrow (raws & Hraws%entries_to_dicts_ok & _)%fetch_feed_entries.
  apply Forall_forall. intros i (e & -> & He)%list_elem_of_fmap.
  split; [done|]. simpl.
  induction Hraws as [|raw n raws ns Hn _ IH]; [inversion He|].
  apply elem_of_cons in He as [->|He]; [|by apply IH].
  destruct (entry_title_str _ _ _ _ Hn) as [t Ht].
  destruct (entry_link_str _ _ _ _ Hn) as [l Hl].
  destruct (entry_uid_str _ _ _ _ Hn) as [u Hu].
  by exists t, l, u.
Qed.

Lemma fetch_items_ok (net : network) (now : Z) (rows : list Topic)
    (active : list Topic) :
  ∀ items,
    (∀ topic, topic ∈ active → topic_id topic ∈ map topic_id rows) →
    fetch_items lower net now active = Ok items →
    Forall (item_ok rows) items.
Proof.
  induction active as [|topic active IH]; intros items Hrows; simpl.
  { intros [= <-]. constructor. }
  destruct (fetch_feed lower net now _ _).2 as [entries|err] eqn:Hfetch;
    [|done]. simpl.
  destruct (fetch_items lower net now active) as [rest|err]; [|done]. simpl.
  intros [= <-]. apply Forall_app. split.
  - apply (fetched_entries_ok net now); [|done].
    apply Hrows, elem_of_cons. by left.
  - apply IH; [|done]. intros t Ht. apply Hrows, elem_of_cons. by right.
Qed.

(** The clock of a run does not change which items it meets, nor their
    keys. *)
Lemma fetch_items_clock (net : network) (now now' : Z) (active : list Topic) :
  ∀ items,
    fetch_items lower net now active = Ok items →
    ∃ items', fetch_items lower net now' active = Ok items'
              ∧ map item_key items' = map item_key items.
Proof.
  induction active as [|topic active IH]; intros items; simpl.
  { intros [= <-]. by exists []. }
  destruct (fetch_feed lower net now _ _).2 as [entries|err] eqn:Hfetch;
    [|done]. simpl.
  destruct (fetch_items lower net now active) as [rest|err]; [|done]. simpl.
  intros [= <-]. apply fetch_feed_entries in Hfetch as (raws & Hraws & Hany).
  rewrite (Hany now').
  destruct (entries_to_dicts_clock _ _ _ now' _ Hraws)
    as (entries' & -> & Hsame). simpl.
  destruct (IH rest eq_refl) as (rest' & -> & Hkeys). simpl.
  eexists. split; [done|]. rewrite !map_app, Hkeys. f_equal.
  clear -Hsame. induction Hsame as [|n' n ns' ns Hn _ IH]; [done|].
  simpl. rewrite IH. f_equal. unfold item_key; simpl.
  destruct Hn as (-> & _ & -> & ->). done.
Qed.

Lemma ingest_topics_items (net : network) (now : Z) (active : list Topic) :
  ∀ items st,
    fetch_items lower net now active = Ok items →
    ingest_topics lower net now active st = ingest_items lower now items st.
Proof.
  induction active as [|topic active IH]; intros items st; simpl.
  { by intros [= <-]. }
  destruct (fetch_feed lower net now _ _).2 as [entries|err]; [|done]. simpl.
  destruct (fetch_items lower net now active) as [rest|err] eqn:Hrest;
    [|done]. simpl.
  intros [= <-]. rewrite ingest_items_app, ingest_entries_items.
  destruct (ingest_items lower now (map (pair topic) entries) st); simpl;
    [by apply IH | done].
Qed.

Lemma ingest_topics_fetched (net : network) (now : Z) (active : list Topic) :
  ∀ st st',
    ingest_topics lower net now active st = Ok st' →
    ∃ items, fetch_items lower net now active = Ok items.
Proof.
  induction active as [|topic active IH]; intros st st'; simpl.
  { by exists []. }
  destruct (fetch_feed lower net now _ _).2 as [entries|err]; [|done]. simpl.
  destruct (ingest_entries lower now topic entries st) as [st1|err]; [|done].
  simpl. intros Hrest. destruct (IH _ _ Hrest) as [items ->]. simpl. eauto.
Qed.

(** ** The ingest pipeline: a whole run *)

Lemma active_topic_row (db : DB) (topic : Topic) :
  topic ∈ _get_active_topics db → topic_id topic ∈ map topic_id (topics db).
Proof.
  unfold _get_active_topics. rewrite list_elem_of_In, filter_In.
  intros [Hin _]. apply list_elem_of_fmap. exists topic.
  by rewrite list_elem_of_In.
Qed.

Lemma ingest_topics_fetch_error (net : network) (now : Z)
    (active : list Topic) :
  ∀ (session : DB) (s : stats) (topic : Topic) (e : error),
    NoDup (uids session) →
    (∀ t, t ∈ active → topic_id t ∈ map topic_id (topics session)) →
    topic ∈ active →
    (fetch_feed lower net now (topic_source topic) (topic_feed_url topic)).2
    = Err e →
    ∃ topic' e',
      topic' ∈ active
      ∧ (fetch_feed lower net now (topic_source topic')
                    (topic_feed_url topic')).2 = Err e'
      ∧ ingest_topics lower net now active (session, s) = Err e'.
Proof.
  induction active as [|head active IH]; intros session s topic e Hnd Hrows Hin He.
  { inversion Hin. }
  simpl.
  destruct (fetch_feed lower net now (topic_source head) _).2
    as [entries|e0] eqn:Hfetch.
  - cbn [bind]. rewrite ingest_entries_items.
    assert (topic_id head ∈ map topic_id (topics session)) as Hrow
      by (apply Hrows, elem_of_cons; by left).
    destruct (ingest_items_ok now (map (pair head) entries) session s Hnd
                (fetched_entries_ok net now _ _ _ Hrow Hfetch))
      as (session' & s' & -> & Hnd' & Htopics & _).
    cbn [bind].
    apply elem_of_cons in Hin as [->|Hin]; [congruence|].
    destruct (IH session' s' topic e) as (topic' & e' & Hin' & He' & Hrun);
      try done.
    { intros t Ht. rewrite Htopics. apply Hrows, elem_of_cons. by right. }
    exists topic', e'. split; [|done]. apply elem_of_cons. by right.
  - exists head, e0. split; [|done]. apply elem_of_cons. by left.
Qed.

(** C3: when the fetch or normalize step of some active topic fails (its
    source is not supported, the request or the parse of its feed fails, or
    an entry of its feed fails to convert), the run fails with the error of
    a failing step and the persisted state is the one before the run; and
    whatever error a run fails with, it leaves the persisted state
    untouched. *)
Theorem fetch_failure_aborts_run (net : network) (now : Z) (db : DB)
    (topic : Topic) :
  NoDup (uids db) →
  topic ∈ _get_active_topics db →
  lower (topic_source topic) ∉ ["v2ex"; "nodeseek"; "linux.do"]
  ∨ (∃ err, net (topic_feed_url topic) = Err err)
  ∨ (∃ parsed raw err,
       lower (topic_source topic) ∈ ["v2ex"; "nodeseek"; "linux.do"]
       ∧ net (topic_feed_url topic) = Ok parsed
       ∧ raw ∈ default [] (feed_entries parsed)
       ∧ _entry_to_dict raw (lower (topic_source topic)) now = Err err) →
  (∃ topic' e',
     topic' ∈ _get_active_topics db
     ∧ (fetch_feed lower net now (topic_source topic')
                   (topic_feed_url topic')).2 = Err e'
     ∧ fetch_all_topics lower net now db = (db, Err e'))
  ∧ (∀ net' now' db' err,
       (fetch_all_topics lower net' now' db').2 = Err err →
       (fetch_all_topics lower net' now' db').1 = db').
Proof.
  intros Hnd Hin [e He]%fetch_feed_fails. split.
  - destruct (ingest_topics_fetch_error net now (_get_active_topics db) db
                {| topics_checked := length (_get_active_topics db);
                   posts_created := 0; duplicates := 0 |} topic e)
      as (topic' & e' & Hin' & He' & Hrun); try done.
    { intros t. apply active_topic_row. }
    exists topic', e'. repeat split; try done.
    unfold fetch_all_topics. simpl. by rewrite Hrun.
  - intros net' now' db' err. unfold fetch_all_topics. simpl.
    by destruct (ingest_topics _ _ _ _ _) as [[? ?]|?].
Qed.

Lemma item_key_keep (i j : Topic * entry) :
  item_key i = item_key j → item_keep lower i = item_keep lower j.
Proof.
  destruct i as [ti ei], j as [tj ej]. unfold item_key, item_keep; simpl.
  intros [= -> Hu Ht Hs]. unfold _should_keep_entry. by rewrite Ht, Hs.
Qed.

Lemma item_key_persisted (db : DB) (i j : Topic * entry) :
  item_key i = item_key j → persisted db i = persisted db j.
Proof.
  destruct i as [ti ei], j as [tj ej]. unfold item_key, persisted, item_uid.
  simpl. by intros [= _ -> _ _].
Qed.

Lemma filter_length_keys {A K : Type} (f : A → K) (p : A → bool) :
  (∀ a b, f a = f b → p a = p b) →
  ∀ xs ys, map f xs = map f ys →
           length (List.filter p xs) = length (List.filter p ys).
Proof.
  intros Hp. induction xs as [|x xs IH]; intros [|y ys]; simpl; try done.
  intros [= Hxy Hrest]. rewrite (Hp x y Hxy).
  destruct (p y); simpl; by rewrite (IH ys).
Qed.

Lemma NoDup_map_inj {A B : Type} (f : A → B) (l : list A) (x y : A) :
  NoDup (map f l) → x ∈ l → y ∈ l → f x = f y → x = y.
Proof.
  induction l as [|a l IH]; [intros _ Hx; inversion Hx|].
  simpl. intros [Hnotin Hnd]%NoDup_cons.
  intros [->|Hx]%elem_of_cons [->|Hy]%elem_of_cons Hxy; try done.
  - destruct Hnotin. rewrite Hxy. apply list_elem_of_fmap. by exists y.
  - destruct Hnotin. rewrite <- Hxy. apply list_elem_of_fmap. by exists x.
  - by apply IH.
Qed.

Lemma filter_length_ext {A : Type} (p q : A → bool) (l : list A) :
  (∀ x, x ∈ l → p x = q x) →
  length (List.filter p l) = length (List.filter q l).
Proof.
  induction l as [|a l IH]; [done|]. intros Hpq. simpl.
  rewrite (Hpq a) by (apply elem_of_cons; by left).
  destruct (q a); simpl; rewrite IH; try done;
    intros x Hx; apply Hpq, elem_of_cons; by right.
Qed.

(** C1, amended: after a run that succeeded, a second run on the unchanged
    feed succeeds, persists nothing new (the state is the same) and creates
    no post; its duplicates counter is the number of feed entries whose uid
    is persisted.  When the entries' uids are pairwise distinct and none was
    persisted before the first run, that number is the first run's
    [posts_created], the first run saw no duplicate, and the entries the
    first run filtered out by keyword are not persisted, hence counted
    neither as created nor as duplicates. *)
Theorem rerun_unchanged_feed (net : network) (now1 now2 : Z) (db0 db1 : DB)
    (s1 : stats) :
  NoDup (uids db0) →
  fetch_all_topics lower net now1 db0 = (db1, Ok s1) →
  ∃ items s2,
    fetch_items lower net now1 (_get_active_topics db0) = Ok items
    ∧ fetch_all_topics lower net now2 db1 = (db1, Ok s2)
    ∧ posts_created s2 = 0%nat
    ∧ duplicates s2 = length (List.filter (persisted db1) items)
    ∧ (NoDup (map item_uid items) →
       (∀ i, i ∈ items → persisted db0 i = false) →
       duplicates s2 = posts_created s1
       ∧ duplicates s1 = 0%nat
       ∧ ∀ i, i ∈ items → item_keep lower i = false →
              persisted db1 i = false).
Proof.
  intros Hnd Hrun1. unfold fetch_all_topics in Hrun1. simpl in Hrun1.
  set (active := _get_active_topics db0) in *.
  set (s0 := {| topics_checked := length active; posts_created := 0;
                duplicates := 0 |}) in *.
  destruct (ingest_topics lower net now1 active (db0, s0))
    as [[session s]|err] eqn:Hbody; [|done].
  injection Hrun1 as -> ->.
  destruct (ingest_topics_fetched _ _ _ _ _ Hbody) as [items Hitems].
  rewrite (ingest_topics_items _ _ _ _ _ Hitems) in Hbody.
  assert (Forall (item_ok (topics db0)) items) as Hok.
  { apply (fetch_items_ok net now1 _ active); [|done].
    intros t. apply active_topic_row. }
  destruct (ingest_items_ok now1 items db0 s0 Hnd Hok)
    as (db1' & s1' & Hrun & Hnd1 & Htopics & _ & _ & Hall).
  rewrite Hbody in Hrun. injection Hrun as <- <-.
  assert (_get_active_topics db1 = active) as Hactive
    by (unfold active, _get_active_topics; by rewrite Htopics).
  destruct (fetch_items_clock net now1 now2 active items Hitems)
    as (items' & Hitems' & Hkeys).
  assert (Forall (item_ok (topics db1)) items') as Hok'.
  { apply (fetch_items_ok net now2 _ active); [|done].
    intros t Ht. rewrite Htopics. by apply active_topic_row. }
  assert (∀ j, j ∈ items' →
            persisted db1 j = true ∨ item_keep lower j = false) as Hall'.
  { intros j Hj.
    assert (item_key j ∈ map item_key items) as Hk
      by (rewrite <- Hkeys; apply list_elem_of_fmap; by exists j).
    apply list_elem_of_fmap in Hk as (i & Hij & Hi).
    rewrite (item_key_persisted db1 j i Hij), (item_key_keep j i Hij).
    by apply Hall. }
  set (s0' := {| topics_checked := length active; posts_created := 0;
                 duplicates := 0 |}).
  pose proof (ingest_items_rerun now2 items' db1 s0' Hnd1 Hok' Hall') as Hrun2.
  simpl in Hrun2.
  rewrite (filter_length_keys item_key (persisted db1)
             (item_key_persisted db1) items' items Hkeys) in Hrun2.
  eexists items, _. split; [done|]. split.
  { unfold fetch_all_topics. simpl. rewrite Hactive.
    rewrite (ingest_topics_items _ _ _ _ _ Hitems'). fold s0'.
    by rewrite Hrun2. }
  split; [done|]. split; [done|].
  intros Huniq Hnew. simpl.
  destruct (ingest_items_fresh now1 items db0 s0 Hnd Hok Huniq Hnew)
    as (db1' & Hfresh & Huids).
  rewrite Hbody in Hfresh. injection Hfresh as <- ->. simpl.
  assert (∀ i, i ∈ items → persisted db1 i = item_keep lower i) as Hpk.
  { intros i Hi. unfold persisted. rewrite Huids.
    destruct (item_keep lower i) eqn:Hkeep.
    - apply bool_decide_eq_true_2, elem_of_app. right.
      apply list_elem_of_fmap. exists i. split; [done|].
      apply list_elem_of_In, filter_In. by rewrite <- list_elem_of_In.
    - apply bool_decide_eq_false_2. intros [Hold|Hkept]%elem_of_app.
      + assert (persisted db0 i = false) as Hp by by apply Hnew.
        unfold persisted in Hp. by apply bool_decide_eq_false_1 in Hp.
      + apply list_elem_of_fmap in Hkept as (j & Hij & Hj).
        apply list_elem_of_In, filter_In in Hj as [Hj Hkj].
        apply list_elem_of_In in Hj.
        assert (i = j) as -> by by apply (NoDup_map_inj item_uid items).
        congruence. }
  split; [by apply filter_length_ext|]. split; [done|].
  intros i Hi Hkeep. by rewrite Hpk.
Qed.

End Properties.

(** ** The topic endpoints *)

(** C7: creating a topic under a name that an existing topic bears is
    answered with the 400 [HTTPException], a client error and not a server
    error, and the persisted state, the existing topic included, is the one
    before the request. *)
Theorem create_topic_duplicate_name (db : DB) (now : Z)
    (topic_in : TopicCreate) (existing : Topic) :
  existing ∈ topics db →
  topic_name existing = create_name topic_in →
  main.create_topic db now topic_in
  = (db, HTTPException HTTP_400_BAD_REQUEST
           "Topic with the same name already exists.")
  ∧ 400 ≤ status_of (main.create_topic db now topic_in).2 < 500
  ∧ existing ∈ topics (main.create_topic db now topic_in).1.
Proof.
  intros Hin Hname.
  assert (main.create_topic db now topic_in
          = (db, HTTPException HTTP_400_BAD_REQUEST
                   "Topic with the same name already exists.")) as Heq.
  { unfold main.create_topic, crud.create_topic, insert_topic.
    rewrite bool_decide_eq_true_2; [done|].
    apply list_elem_of_fmap. by exists existing. }
  rewrite Heq. simpl. unfold HTTP_400_BAD_REQUEST. repeat split; [lia..|done].
Qed.

Lemma setattr_dump (o : TopicAttrs) (u : TopicUpdate) :
  foldl setattr o (model_dump_exclude_unset u)
  = {| attr_name := default (attr_name o) (update_name u);
       attr_source := default (attr_source o) (update_source u);
       attr_feed_url := default (attr_feed_url o) (update_feed_url u);
       attr_keywords := default (attr_keywords o) (update_keywords u);
       attr_is_active := default (attr_is_active o) (update_is_active u) |}.
Proof.
  destruct o as [n s f k a], u as [[un|] [us|] [uf|] [uk|] [ua|]];
    reflexivity.
Qed.

(** C8, amended: when a partial update commits, every payload field that
    is not supplied keeps its value and every supplied one takes the
    supplied value; [id] and [created_at] are kept; the storage layer sets
    [updated_at] to the time of the update exactly when a supplied value
    differs from the stored one; posts, push logs and the other topics are
    untouched. *)
Theorem update_topic_frame (db db' : DB) (now : Z) (topic updated : Topic)
    (topic_in : TopicUpdate) :
  crud.update_topic db now topic topic_in = Ok (db', updated) →
  (update_name topic_in = None → topic_name updated = topic_name topic)
  ∧ (update_source topic_in = None →
     topic_source updated = topic_source topic)
  ∧ (update_feed_url topic_in = None →
     topic_feed_url updated = topic_feed_url topic)
  ∧ (update_keywords topic_in = None →
     topic_keywords updated = topic_keywords topic)
  ∧ (update_is_active topic_in = None →
     topic_is_active updated = topic_is_active topic)
  ∧ attrs_of updated
    = foldl setattr (attrs_of topic) (model_dump_exclude_unset topic_in)
  ∧ topic_id updated = topic_id topic
  ∧ topic_created_at updated = topic_created_at topic
  ∧ (if bool_decide (attrs_of updated = attrs_of topic)
     then updated = topic ∧ db' = db
     else topic_updated_at updated = now)
  ∧ posts db' = posts db
  ∧ push_logs db' = push_logs db
  ∧ (∀ other, other ∈ topics db → topic_id other ≠ topic_id topic →
              other ∈ topics db')
  ∧ (topic ∈ topics db → updated ∈ topics db').
Proof.
  unfold crud.update_topic, update_row. rewrite setattr_dump.
  set (attrs := {| attr_name := _ |}).
  assert (attr_name attrs
          = default (Some (topic_name topic)) (update_name topic_in))
    as Hn by reflexivity.
  assert (attr_source attrs
          = default (Some (topic_source topic)) (update_source topic_in))
    as Hs by reflexivity.
  assert (attr_feed_url attrs
          = default (Some (topic_feed_url topic)) (update_feed_url topic_in))
    as Hf by reflexivity.
  assert (attr_keywords attrs
          = default (topic_keywords topic) (update_keywords topic_in))
    as Hk by reflexivity.
  assert (attr_is_active attrs
          = default (Some (topic_is_active topic)) (update_is_active topic_in))
    as Ha by reflexivity.
  clearbody attrs. destruct attrs as [an asrc af ak aa]. simpl in *.
  case_bool_decide as Hsame.
  { intros [= <- <-]. rewrite <- Hsame.
    rewrite bool_decide_eq_true_2 by done. repeat split; done. }
  destruct an as [name|]; [|done]. destruct asrc as [source|]; [|done].
  destruct af as [feed_url|]; [|done]. destruct aa as [is_active|]; [|done].
  destruct (existsb _ _); [done|]. intros [= <- <-].
  unfold attrs_of at 1 2. simpl.
  rewrite (bool_decide_eq_false_2 _ Hsame).
  repeat split; try done.
  - intros Hu. rewrite Hu in Hn. simpl in Hn. congruence.
  - intros Hu. rewrite Hu in Hs. simpl in Hs. congruence.
  - intros Hu. rewrite Hu in Hf. simpl in Hf. congruence.
  - intros Hu. rewrite Hu in Hk. simpl in Hk. congruence.
  - intros Hu. rewrite Hu in Ha. simpl in Ha. congruence.
  - intros other Hin Hne. apply list_elem_of_fmap. exists other.
    by rewrite bool_decide_eq_false_2.
  - intros Hin. apply list_elem_of_fmap. exists topic.
    by rewrite bool_decide_eq_true_2.
Qed.

(** ** The scenarios, evaluated *)

(** The specification's scenario: the first run creates the post of A
    alone, with one pending log; the second run creates nothing and counts
    one duplicate. *)
Example scenario_first_run :
  fetch_all_topics ascii_lower Scenario.feed_ab 200 Scenario.db0
  = (Scenario.db1,
     Ok {| topics_checked := 1; posts_created := 1; duplicates := 0 |}).
Proof. vm_compute. reflexivity. Qed.

Example scenario_second_run :
  fetch_all_topics ascii_lower Scenario.feed_ab 500 Scenario.db1
  = (Scenario.db1,
     Ok {| topics_checked := 1; posts_created := 0; duplicates := 1 |}).
Proof. vm_compute. reflexivity. Qed.

Example scenario_match_keywords :
  match_keywords ascii_lower (VStr "Python FastAPI release") ["fastapi"] = true
  ∧ match_keywords ascii_lower (VStr "All topics welcome") [] = true
  ∧ match_keywords ascii_lower VNone ["python"] = false
  ∧ match_keywords ascii_lower (VStr "Rust updates") ["python"] = false
  ∧ match_keywords ascii_lower (VStr "lowercase text") ["LOWERCASE"] = true
  ∧ match_keywords ascii_lower (VStr "   ") ["python"] = false.
Proof. vm_compute. repeat split. Qed.

(** A feed that carries one uid twice: the second run counts both entries
    as duplicates, the one the first run rejected by keyword included. *)
Example scenario_repeated_uid :
  fetch_all_topics ascii_lower Scenario.feed_aa 200 Scenario.db0
  = (Scenario.db1,
     Ok {| topics_checked := 1; posts_created := 1; duplicates := 0 |})
  ∧ fetch_all_topics ascii_lower Scenario.feed_aa 500 Scenario.db1
    = (Scenario.db1,
       Ok {| topics_checked := 1; posts_created := 0; duplicates := 2 |}).
Proof. vm_compute. split; reflexivity. Qed.

(** C1, as stated, fails when two active topics read the same feed.  The
    first run creates two posts (A for the keyword topic, B for the
    accept-all topic) and rejects B by keyword for the first topic; the
    second run creates nothing and counts four duplicates, not two, and B,
    which the first run filtered out for the first topic, is among them. *)
Lemma rerun_duplicates_exceed_created :
  fetch_all_topics ascii_lower Scenario.feed_ab 200 Scenario.db_shared0
  = (Scenario.db_shared1,
     Ok {| topics_checked := 2; posts_created := 2; duplicates := 1 |})
  ∧ fetch_all_topics ascii_lower Scenario.feed_ab 500 Scenario.db_shared1
    = (Scenario.db_shared1,
       Ok {| topics_checked := 2; posts_created := 0; duplicates := 4 |})
  ∧ duplicates
      {| topics_checked := 2; posts_created := 0; duplicates := 4 |}
    ≠ posts_created
        {| topics_checked := 2; posts_created := 2; duplicates := 1 |}
  ∧ (n ← _entry_to_dict Scenario.unrelated "v2ex" 200;;;
     Ok (_should_keep_entry ascii_lower n
           (topic_keywords Scenario.python_topic))) = Ok false
  ∧ (n ← _entry_to_dict Scenario.unrelated "v2ex" 500;;;
     ingest_entry ascii_lower 500 Scenario.python_topic
       (Scenario.db_shared1, Scenario.zero 2) n)
    = Ok (Scenario.db_shared1, bump_duplicates (Scenario.zero 2)).
Proof. vm_compute. repeat split. discriminate. Qed.

Example scenario_should_keep_entry :
  _should_keep_entry ascii_lower
    {| entry_title := VStr "Tutorial";
       entry_summary := VStr "Learn Python programming";
       entry_link := VStr ""; entry_uid := VStr "u";
       entry_published_at := 0 |} (Some ["python"]) = true
  ∧ _should_keep_entry ascii_lower
      {| entry_title := VStr "JavaScript";
         entry_summary := VStr "Node.js tutorial";
         entry_link := VStr ""; entry_uid := VStr "u";
         entry_published_at := 0 |} (Some ["python"]) = false
  ∧ _should_keep_entry ascii_lower
      {| entry_title := VNone; entry_summary := VNone;
         entry_link := VStr ""; entry_uid := VStr "u";
         entry_published_at := 0 |} (Some ["python"]) = false.
Proof. vm_compute. repeat split. Qed.

(** An entry with a title only: empty link, no summary, the uid made of
    source and title, the publication time read off the clock. *)
Example scenario_minimal_entry :
  _entry_to_dict
    {| raw_link := None; raw_id := None; raw_guid := None;
       raw_title := Some (VStr "Minimal Post"); raw_summary := None;
       raw_content := None; raw_published_parsed := None;
       raw_updated_parsed := None; raw_created_parsed := None |} "v2ex" 777
  = Ok {| entry_title := VStr "Minimal Post"; entry_link := VStr "";
          entry_summary := VNone; entry_uid := VStr "v2ex:Minimal Post";
          entry_published_at := 777 |}.
Proof. reflexivity. Qed.

Example scenario_content_field :
  _entry_to_dict
    {| raw_link := None; raw_id := Some (VStr "content-guid");
       raw_guid := None; raw_title := Some (VStr "Content Field Post");
       raw_summary := None;
       raw_content := Some [Some (VStr "Content from content field")];
       raw_published_parsed := Some Scenario.epoch;
       raw_updated_parsed := None;
       raw_created_parsed := None |} "v2ex" 777
  = Ok {| entry_title := VStr "Content Field Post";
          entry_link := VStr "content-guid";
          entry_summary := VStr "Content from content field";
          entry_uid := VStr "content-guid";
          entry_published_at := 0 |}.
Proof. vm_compute. reflexivity. Qed.

(** Dates: the conversion of a parsed date to epoch seconds, and the dates
    it raises on.  The entry of the year 10000 raises although a sound
    [updated_parsed] stands behind its [published_parsed]. *)
Example scenario_dates :
  timegm Scenario.epoch = Ok 0
  ∧ timegm {| tm_year := 2024; tm_mon := 2; tm_mday := 29;
              tm_hour := 12; tm_min := 30; tm_sec := 15 |} = Ok 1709209815
  ∧ timegm {| tm_year := 9999; tm_mon := 12; tm_mday := 31;
              tm_hour := 23; tm_min := 59; tm_sec := 59 |} = Ok MAX_TIMESTAMP
  ∧ timegm {| tm_year := 1; tm_mon := 1; tm_mday := 1;
              tm_hour := 0; tm_min := 0; tm_sec := 0 |} = Ok MIN_TIMESTAMP
  ∧ timegm Scenario.year_10000 = Err (ValueError "year is out of range")
  ∧ timegm Scenario.hour_24 = Ok (MAX_TIMESTAMP + 1)
  ∧ fromtimestamp (MAX_TIMESTAMP + 1) = Err (ValueError "year is out of range")
  ∧ _entry_to_dict Scenario.far_future "v2ex" 777
    = Err (ValueError "year is out of range")
  ∧ _entry_to_dict Scenario.unrelated_a "v2ex" 500
    = Ok Scenario.unrelated_a_entry.
Proof. vm_compute. repeat split. Qed.

Example scenario_dispatch :
  fetch_feed ascii_lower Scenario.feed_ab 0 "LINUX.DO" "https://linux.do/rss"
  = fetch_linux_do_feed Scenario.feed_ab 0 "https://linux.do/rss"
  ∧ fetch_feed ascii_lower Scenario.feed_ab 0 "unknown" "https://example.com"
    = ([], Err (ValueError "Unsupported source: unknown")).
Proof. vm_compute. split; reflexivity. Qed.

(** The first topic's entry is stored in the session before the second
    topic's fetch fails; the run drops it with the rest. *)
Example scenario_feed_down :
  ingest_topics ascii_lower Scenario.feed_down 200 [Scenario.python_topic]
    (Scenario.db_two, Scenario.zero 2)
  = Ok (with_post Scenario.db_two 200 Scenario.python_topic "Python release"
          (VStr "Python and FastAPI updates") "https://example.com/python"
          "A" 0,
        {| topics_checked := 2; posts_created := 1; duplicates := 0 |})
  ∧ fetch_all_topics ascii_lower Scenario.feed_down 200 Scenario.db_two
    = (Scenario.db_two, Err (HTTPError "503 Service Unavailable")).
Proof. vm_compute. split; reflexivity. Qed.

(** The same with a second feed that is served and parsed, and carries an
    entry that fails to convert: no entry of that feed is ingested, and the
    run drops the first topic's post. *)
Example scenario_far_future :
  ingest_topics ascii_lower Scenario.feed_far_future 200
    [Scenario.python_topic] (Scenario.db_two, Scenario.zero 2)
  = Ok (with_post Scenario.db_two 200 Scenario.python_topic "Python release"
          (VStr "Python and FastAPI updates") "https://example.com/python"
          "A" 0,
        {| topics_checked := 2; posts_created := 1; duplicates := 0 |})
  ∧ fetch_feed ascii_lower Scenario.feed_far_future 200 "nodeseek"
      "https://www.nodeseek.com/rss"
    = (["https://www.nodeseek.com/rss"],
       Err (ValueError "year is out of range"))
  ∧ fetch_all_topics ascii_lower Scenario.feed_far_future 200 Scenario.db_two
    = (Scenario.db_two, Err (ValueError "year is out of range")).
Proof. vm_compute. repeat split. Qed.

(** ** Instances of the conditional theorems *)

(** The specification's scenario through the theorem: uids A and B are
    distinct and new, so the second run's duplicates are the first run's
    one created post. *)
Lemma rerun_unchanged_feed_witness :
  ∃ s2,
    fetch_all_topics ascii_lower Scenario.feed_ab 500 Scenario.db1
    = (Scenario.db1, Ok s2)
    ∧ posts_created s2 = 0%nat
    ∧ duplicates s2 = 1%nat.
Proof.
  assert (NoDup (uids Scenario.db0)) as Hnd by apply NoDup_nil_2.
  assert (fetch_all_topics ascii_lower Scenario.feed_ab 200 Scenario.db0
          = (Scenario.db1,
             Ok {| topics_checked := 1; posts_created := 1;
                   duplicates := 0 |})) as Hrun1
    by (vm_compute; reflexivity).
  destruct (rerun_unchanged_feed ascii_lower Scenario.feed_ab 200 500
              Scenario.db0 Scenario.db1 _ Hnd Hrun1)
    as (items & s2 & Hitems & Hrun2 & Hcreated & _ & Hdistinct).
  exists s2. split; [exact Hrun2|]. split; [exact Hcreated|].
  vm_compute in Hitems. injection Hitems as <-.
  apply Hdistinct.
  - apply (bool_decide_unpack _). vm_compute. exact I.
  - intros i _. apply bool_decide_eq_false_2. apply not_elem_of_nil.
Defined.

(** The second topic's feed carries the entry of the year 10000: its
    conversion fails, and the run that had stored the first topic's entry
    ends on the tables it began with. *)
Lemma fetch_failure_aborts_run_witness :
  (∃ topic' e',
     topic' ∈ _get_active_topics Scenario.db_two
     ∧ (fetch_feed ascii_lower Scenario.feed_far_future 200
                   (topic_source topic') (topic_feed_url topic')).2 = Err e'
     ∧ fetch_all_topics ascii_lower Scenario.feed_far_future 200
                        Scenario.db_two
       = (Scenario.db_two, Err e'))
  ∧ (∀ net' now' db' err,
       (fetch_all_topics ascii_lower net' now' db').2 = Err err →
       (fetch_all_topics ascii_lower net' now' db').1 = db').
Proof.
  apply (fetch_failure_aborts_run ascii_lower Scenario.feed_far_future 200
           Scenario.db_two Scenario.nodeseek_topic).
  - apply NoDup_nil_2.
  - vm_compute. apply elem_of_cons. right. apply elem_of_cons. by left.
  - right. right.
    exists {| feed_entries := Some [Scenario.unrelated; Scenario.far_future] |},
           Scenario.far_future, (ValueError "year is out of range").
    split; [apply (bool_decide_unpack _); vm_compute; exact I|].
    split; [reflexivity|].
    split; [apply elem_of_cons; right; apply elem_of_cons; by left|].
    vm_compute. reflexivity.
Defined.

(** Entry A is persisted in [Scenario.db1]; an entry that carries its uid
    and fails the keyword is counted as a duplicate. *)
Lemma duplicate_check_precedes_filter_witness :
  ingest_entry ascii_lower 500 Scenario.python_topic
    (Scenario.db1, Scenario.zero 1) Scenario.unrelated_a_entry
  = Ok (Scenario.db1, bump_duplicates (Scenario.zero 1)).
Proof.
  refine (proj1 (duplicate_check_precedes_filter ascii_lower 500
                   Scenario.python_topic Scenario.db1 (Scenario.zero 1)
                   Scenario.unrelated_a_entry "A"
                   _ _) _).
  - vm_compute. apply NoDup_singleton.
  - reflexivity.
  - vm_compute. apply elem_of_cons. by left.
Defined.

Lemma create_topic_duplicate_name_witness :
  main.create_topic Scenario.db0 300 Scenario.same_name
  = (Scenario.db0, HTTPException HTTP_400_BAD_REQUEST
                     "Topic with the same name already exists.")
  ∧ 400 ≤ status_of
            (main.create_topic Scenario.db0 300 Scenario.same_name).2 < 500
  ∧ Scenario.python_topic
    ∈ topics (main.create_topic Scenario.db0 300 Scenario.same_name).1.
Proof.
  apply (create_topic_duplicate_name Scenario.db0 300 Scenario.same_name
           Scenario.python_topic).
  - apply elem_of_cons. by left.
  - reflexivity.
Defined.

Lemma update_topic_frame_witness :
  topic_name Scenario.deactivated = topic_name Scenario.python_topic
  ∧ topic_keywords Scenario.deactivated
    = topic_keywords Scenario.python_topic
  ∧ topic_is_active Scenario.deactivated = false
  ∧ topic_created_at Scenario.deactivated
    = topic_created_at Scenario.python_topic.
Proof.
  assert (crud.update_topic Scenario.db0 300 Scenario.python_topic
            Scenario.deactivate
          = Ok (Scenario.db_deactivated, Scenario.deactivated)) as Hrun
    by (vm_compute; reflexivity).
  destruct (update_topic_frame Scenario.db0 Scenario.db_deactivated 300
              Scenario.python_topic Scenario.deactivated Scenario.deactivate
              Hrun)
    as (Hname & _ & _ & Hkeywords & _ & _ & _ & Hcreated & _).
  split; [by apply Hname|]. split; [by apply Hkeywords|].
  split; [reflexivity | exact Hcreated].
Defined.

(** C8, as stated, fails at [updated_at]: the payload [{"is_active":
    false}] does not supply it, yet the committed topic carries the time of
    the update in place of the previous value. *)
Lemma update_topic_touches_updated_at :
  crud.update_topic Scenario.db0 300 Scenario.python_topic Scenario.deactivate
  = Ok (Scenario.db_deactivated, Scenario.deactivated)
  ∧ topic_updated_at Scenario.deactivated
    ≠ topic_updated_at Scenario.python_topic.
Proof. vm_compute. split; [reflexivity | discriminate]. Qed.

(** C5, as stated, fails on an entry whose parsed date [datetime] cannot
    hold.  The entry of the year 10000 has the id C, a link and a title;
    the normalizer raises on it, under every source and clock, so the entry
    gets no uid at all. *)
Lemma entry_of_year_10000_has_no_uid :
  get (raw_id Scenario.far_future) = VStr "C"
  ∧ _entry_to_dict Scenario.far_future "v2ex" 200
    = Err (ValueError "year is out of range")
  ∧ ∀ source now n, _entry_to_dict Scenario.far_future source now ≠ Ok n.
Proof. split; [reflexivity|]. split; [vm_compute; reflexivity|]. done. Qed.

(** ** Evaluating the read and delete operations *)

Example fixture_list_posts :
  crud.list_posts sqlite Fixture.listing 0 2 None None
  = Ok ([Fixture.post 3 2 "linux:1" 1120; Fixture.post 2 1 "v2ex:2" 1060],
        3%nat)
  ∧ crud.list_posts sqlite Fixture.listing 0 20 (Some 1) None
    = Ok ([Fixture.post 2 1 "v2ex:2" 1060; Fixture.post 1 1 "v2ex:1" 1000],
          2%nat)
  ∧ crud.list_posts sqlite Fixture.listing 0 20 None (Some "linux.do")
    = Ok ([Fixture.post 3 2 "linux:1" 1120], 1%nat)
  ∧ crud.list_posts sqlite Fixture.listing 0 20 (Some 99999) None
    = Ok ([], 0%nat)
  ∧ crud.list_posts sqlite Fixture.listing 0 20 None (Some "V2EX")
    = Ok ([], 0%nat).
Proof. vm_compute. repeat split. Qed.

Example fixture_list_logs_and_stats :
  crud.list_push_logs sqlite Fixture.listing 1 1 (Some "pending")
  = Ok ([Fixture.log 1 1 "pending" 1000], 2%nat)
  ∧ crud.get_system_stats Fixture.listing
    = {| topics_total := 2; active_topics := 1; posts_total := 3;
         logs_total := 3 |}
  ∧ main.list_topics sqlite Fixture.listing 0 0 = Unprocessable "limit"
  ∧ main.list_posts sqlite Fixture.listing 0 20 (Some 0) None
    = Unprocessable "topic_id".
Proof. vm_compute. repeat split. Qed.

Example fixture_delete :
  main.delete_topic sqlite Fixture.listing 1
  = ({| topics := [Fixture.topic 2 "Linux Do" "linux.do" false];
        posts := [Fixture.post 3 2 "linux:1" 1120];
        push_logs := [Fixture.log 3 3 "pending" 1120] |},
     Returned HTTP_204_NO_CONTENT ())
  ∧ main.delete_topic sqlite Fixture.listing 7
    = (Fixture.listing, HTTPException HTTP_404_NOT_FOUND "Topic not found.").
Proof. vm_compute. repeat split. Qed.

(** Integers past the 64 bits of the engine: within the bounds the
    endpoints declare, and answered with the driver's error; nothing is
    changed. *)
Example fixture_overflow :
  main.get_topic sqlite Fixture.listing (2 ^ 63)
  = Unhandled
      (OverflowError "Python int too large to convert to SQLite INTEGER")
  ∧ main.delete_topic sqlite Fixture.listing (2 ^ 63)
    = (Fixture.listing,
       Unhandled
         (OverflowError "Python int too large to convert to SQLite INTEGER"))
  ∧ main.update_topic sqlite Fixture.listing 300 (2 ^ 63) Scenario.deactivate
    = (Fixture.listing,
       Unhandled
         (OverflowError "Python int too large to convert to SQLite INTEGER"))
  ∧ main.list_posts sqlite Fixture.listing (2 ^ 63) 20 None None
    = Processed
        (Unhandled
           (OverflowError "Python int too large to convert to SQLite INTEGER"))
  ∧ main.list_posts sqlite Fixture.listing 0 20 (Some (2 ^ 63)) None
    = Processed
        (Unhandled
           (OverflowError "Python int too large to convert to SQLite INTEGER"))
  ∧ main.list_topics sqlite Fixture.listing (2 ^ 63) 20
    = Processed
        (Unhandled
           (OverflowError "Python int too large to convert to SQLite INTEGER"))
  ∧ main.list_logs sqlite Fixture.listing (2 ^ 63) 20 None
    = Processed
        (Unhandled
           (OverflowError "Python int too large to convert to SQLite INTEGER"))
  ∧ status_of (main.get_topic sqlite Fixture.listing (2 ^ 63)) = 500
  ∧ status_of (main.get_topic sqlite Fixture.listing (2 ^ 63 - 1)) = 404.
Proof. vm_compute. repeat split. Qed.

(** ** The trace of a run *)

Lemma next_id_fresh (ids : list Z) (x : Z) : x ∈ ids → x < next_id ids.
Proof.
  unfold next_id. induction ids as [|y ids IH]; [intros Hx; inversion Hx|].
  intros [->|Hx]%elem_of_cons; simpl; [lia|]. specialize (IH Hx). lia.
Qed.

Lemma next_id_not_in (ids : list Z) : next_id ids ∉ ids.
Proof. intros Hin%next_id_fresh. lia. Qed.

Lemma NoDup_snoc {A : Type} (l : list A) (x : A) :
  NoDup l → x ∉ l → NoDup (l ++ [x]).
Proof.
  intros Hnd Hx. apply NoDup_app. split; [done|]. split; [|apply NoDup_singleton].
  intros y Hy ->%list_elem_of_singleton. done.
Qed.

Lemma with_post_wf (session : DB) (now : Z) (topic : Topic)
    (t : string) (content : value) (l u : string) (published_at : Z) :
  db_wf session → u ∉ uids session →
  topic_id topic ∈ map topic_id (topics session) →
  db_wf (with_post session now topic t content l u published_at).
Proof.
  intros [Hti Htn Hpi Hpu Hli Hpt Hlp] Hu Htopic.
  constructor; unfold with_post, uids in *; simpl; try done.
  - rewrite map_app. simpl. apply NoDup_snoc; [done | apply next_id_not_in].
  - rewrite map_app. simpl. by apply NoDup_snoc.
  - rewrite map_app. simpl. apply NoDup_snoc; [done | apply next_id_not_in].
  - intros p [Hp|Hp]%elem_of_app; [by apply Hpt|].
    apply list_elem_of_singleton in Hp as ->. done.
  - intros lg Hlg. rewrite map_app. apply elem_of_app.
    apply elem_of_app in Hlg as [Hlg|Hlg].
    + left. by apply Hlp.
    + apply list_elem_of_singleton in Hlg as ->.
      right. simpl. by apply list_elem_of_singleton.
Qed.

Lemma store_all_topics (now : Z) (kept : list (Topic * entry)) :
  ∀ session, topics (store_all now session kept) = topics session.
Proof.
  induction kept as [|[topic e] kept IH]; intros session; simpl; [done|].
  by rewrite IH.
Qed.

Lemma store_all_rows (now : Z) (rows : list Topic)
    (kept : list (Topic * entry)) :
  Forall (item_ok rows) kept →
  ∀ session,
    ∃ new_posts new_logs,
      posts (store_all now session kept) = posts session ++ new_posts
      ∧ push_logs (store_all now session kept)
        = push_logs session ++ new_logs
      ∧ Forall2 (post_of_item now) new_posts kept
      ∧ Forall2 (log_of_post now) new_logs new_posts.
Proof.
  induction kept as [|[topic e] kept IH]; intros Hok session; simpl.
  { exists [], []. rewrite !app_nil_r. repeat split; constructor. }
  apply Forall_cons in Hok as [(_ & t & l & u & Ht & Hl & Hu) Hok].
  simpl in Ht, Hl, Hu.
  destruct (IH Hok
              (with_post session now topic (text_of (entry_title e))
                 (entry_summary e) (text_of (entry_link e))
                 (text_of (entry_uid e)) (entry_published_at e)))
    as (new_posts & new_logs & Hposts & Hlogs & Hmade & Hlinked).
  rewrite Hposts, Hlogs. unfold with_post at 1 2; simpl.
  rewrite <- !app_assoc. simpl. eexists (_ :: new_posts), (_ :: new_logs).
  split; [done|]. split; [done|]. split.
  - constructor; [|done]. unfold post_of_item; simpl.
    rewrite Ht, Hl, Hu. simpl. repeat split.
  - constructor; [|done]. unfold log_of_post. simpl. repeat split.
Qed.

Section Trace.

Variable lower : string → string.

(** Over acceptable items the loop stores the posts of a sublist [kept] of
    the items, all of which pass their topic's keywords, and counts [dups]
    duplicates; it accounts for every item when none is rejected. *)
Lemma ingest_items_trace (now : Z) (items : list (Topic * entry)) :
  ∀ (session : DB) (s : stats),
    NoDup (uids session) →
    Forall (item_ok (topics session)) items →
    ∃ kept (dups : nat),
      ingest_items lower now items (session, s)
      = Ok (store_all now session kept,
            {| topics_checked := topics_checked s;
               posts_created := (posts_created s + length kept)%nat;
               duplicates := (duplicates s + dups)%nat |})
      ∧ kept `sublist_of` items
      ∧ Forall (fun i => item_keep lower i = true) kept
      ∧ (length kept + dups ≤ length items)%nat
      ∧ ((∀ i, i ∈ items → item_keep lower i = true) →
         (length kept + dups = length items)%nat)
      ∧ (db_wf session → db_wf (store_all now session kept)).
Proof.
  induction items as [|[topic e] items IH]; intros session s Hnd Hok.
  { exists [], 0%nat. simpl. rewrite !Nat.add_0_r. destruct s.
    split_and!; done. }
  apply Forall_cons in Hok as [(Htopic & t & l & u & Ht & Hl & Hu) Hok].
  simpl in Htopic, Ht, Hl, Hu. rewrite ingest_items_cons.
  destruct (decide (u ∈ uids session)) as [Hin|Hin].
  { rewrite (ingest_entry_duplicate lower now topic session s e u) by done.
    cbn [bind].
    destruct (IH session (bump_duplicates s) Hnd Hok)
      as (kept & dups & -> & Hsub & Hkeep & Hle & Heq & Hwf).
    exists kept, (S dups). simpl. split_and!; try done.
    - do 2 f_equal. f_equal. lia.
    - by apply sublist_cons.
    - lia.
    - intros Hall. rewrite <- Heq; [lia|].
      intros i Hi. apply Hall, elem_of_cons. by right. }
  destruct (_should_keep_entry lower e (topic_keywords topic)) eqn:Hk.
  - rewrite (ingest_entry_created lower now topic session s e t l u) by done.
    cbn [bind].
    set (session1 := with_post session now topic t (entry_summary e) l u
                       (entry_published_at e)).
    assert (NoDup (uids session1)) as Hnd1.
    { unfold session1. rewrite uids_with_post. by apply NoDup_snoc. }
    destruct (IH session1 (bump_created s) Hnd1 Hok)
      as (kept & dups & -> & Hsub & Hkeep & Hle & Heq & Hwf).
    exists ((topic, e) :: kept), dups.
    assert (store_all now session ((topic, e) :: kept)
            = store_all now session1 kept) as ->.
    { simpl. by rewrite Ht, Hl, Hu. }
    simpl. split_and!; try done.
    + do 2 f_equal. f_equal. lia.
    + by apply sublist_skip.
    + by constructor.
    + lia.
    + intros Hall. rewrite <- Heq; [lia|].
      intros i Hi. apply Hall, elem_of_cons. by right.
    + intros Hwf0. apply Hwf. by apply with_post_wf.
  - rewrite (ingest_entry_filtered lower now topic session s e u) by done.
    cbn [bind].
    destruct (IH session s Hnd Hok)
      as (kept & dups & -> & Hsub & Hkeep & Hle & Heq & Hwf).
    exists kept, dups. simpl. split_and!; try done.
    + by apply sublist_cons.
    + lia.
    + intros Hall.
      assert (item_keep lower (topic, e) = true) as Habs
        by (apply Hall, elem_of_cons; by left).
      unfold item_keep in Habs. simpl in Habs. congruence.
Qed.

(** A run that succeeds, read as the stored sublist of the fetched items. *)
Lemma run_trace (net : network) (now : Z) (db db' : DB) (s : stats) :
  NoDup (uids db) →
  fetch_all_topics lower net now db = (db', Ok s) →
  ∃ items kept (dups : nat),
    fetch_items lower net now (_get_active_topics db) = Ok items
    ∧ Forall (item_ok (topics db)) items
    ∧ db' = store_all now db kept
    ∧ s = {| topics_checked := length (_get_active_topics db);
             posts_created := length kept;
             duplicates := dups |}
    ∧ kept `sublist_of` items
    ∧ Forall (fun i => item_keep lower i = true) kept
    ∧ (length kept + dups ≤ length items)%nat
    ∧ ((∀ i, i ∈ items → item_keep lower i = true) →
       (length kept + dups = length items)%nat)
    ∧ (db_wf db → db_wf db').
Proof.
  intros Hnd Hrun. unfold fetch_all_topics in Hrun. simpl in Hrun.
  destruct (ingest_topics lower net now _ _) as [[session s']|err] eqn:Hbody;
    [|done].
  injection Hrun as -> ->.
  destruct (ingest_topics_fetched lower _ _ _ _ _ Hbody) as [items Hitems].
  rewrite (ingest_topics_items lower _ _ _ _ _ Hitems) in Hbody.
  assert (Forall (item_ok (topics db)) items) as Hok.
  { apply (fetch_items_ok lower net now _ (_get_active_topics db)); [|done].
    intros t. apply active_topic_row. }
  destruct (ingest_items_trace now items db
              {| topics_checked := length (_get_active_topics db);
                 posts_created := 0; duplicates := 0 |} Hnd Hok)
    as (kept & dups & Htrace & Hsub & Hkeep & Hle & Heq & Hwf).
  rewrite Hbody in Htrace. injection Htrace as -> ->.
  exists items, kept, dups. simpl. split_and!; done.
Qed.

End Trace.

(** ** What a run does to the tables *)

Lemma run_failure_rollback (lower : string → string) (net : network)
    (now : Z) (db db' : DB) (e : error) :
  fetch_all_topics lower net now db = (db', Err e) → db' = db.
Proof.
  unfold fetch_all_topics. simpl.
  destruct (ingest_topics _ _ _ _ _) as [[? ?]|?]; congruence.
Qed.

Lemma Forall_sublist_of {A : Type} (P : A → Prop) (kept l : list A) :
  kept `sublist_of` l → Forall P l → Forall P kept.
Proof.
  intros Hsub Hall. apply Forall_forall. intros x Hx.
  eapply Forall_forall; [exact Hall|]. by eapply elem_of_sublist.
Qed.

Section RunProperties.

Variable lower : string → string.

Lemma fetch_items_active (net : network) (now : Z) (active : list Topic) :
  ∀ items, fetch_items lower net now active = Ok items →
           Forall (fun i => i.1 ∈ active) items.
Proof.
  induction active as [|topic active IH]; intros items; simpl.
  { intros [= <-]. constructor. }
  destruct (fetch_feed lower net now _ _).2 as [entries|err]; [|done]. simpl.
  destruct (fetch_items lower net now active) as [rest|err]; [|done]. simpl.
  intros [= <-]. apply Forall_app. split.
  - apply Forall_forall. intros i (e & -> & _)%list_elem_of_fmap.
    apply elem_of_cons. by left.
  - eapply Forall_impl; [by apply IH|]. intros i Hi. apply elem_of_cons.
    by right.
Qed.

(** X1: a run that succeeds leaves the topics as they are and only appends
    to the other two tables: the old posts and logs stay in place, the
    number of appended posts is [posts_created], and the appended logs are
    one per appended post, in order, each pending, without message, and
    pointing at its post. *)
Theorem run_appends_posts_with_logs (net : network) (now : Z) (db db' : DB)
    (s : stats) :
  NoDup (uids db) →
  fetch_all_topics lower net now db = (db', Ok s) →
  topics db' = topics db
  ∧ ∃ new_posts new_logs,
      posts db' = posts db ++ new_posts
      ∧ push_logs db' = push_logs db ++ new_logs
      ∧ length new_posts = posts_created s
      ∧ Forall2 (log_of_post now) new_logs new_posts.
Proof.
  intros Hnd Hrun.
  destruct (run_trace lower net now db db' s Hnd Hrun)
    as (items & kept & dups & _ & Hok & -> & -> & Hsub & _).
  split; [apply store_all_topics|].
  destruct (store_all_rows now (topics db) kept
              (Forall_sublist_of _ _ _ Hsub Hok) db)
    as (new_posts & new_logs & Hposts & Hlogs & Hmade & Hlinked).
  exists new_posts, new_logs. split_and!; try done.
  simpl. by eapply Forall2_length.
Qed.

(** X2: every post a run appends is made from an entry fetched for an
    active topic that passed this topic's keyword filter; it carries the
    topic's id, the entry's title, link, uid, publication time and summary
    (as content), is not pushed, and is dated by the run. *)
Theorem run_posts_come_from_kept_entries (net : network) (now : Z)
    (db db' : DB) (s : stats) :
  NoDup (uids db) →
  fetch_all_topics lower net now db = (db', Ok s) →
  ∃ items kept new_posts,
    fetch_items lower net now (_get_active_topics db) = Ok items
    ∧ kept `sublist_of` items
    ∧ posts db' = posts db ++ new_posts
    ∧ Forall2 (post_of_item now) new_posts kept
    ∧ Forall (fun i => item_keep lower i = true
                       ∧ i.1 ∈ _get_active_topics db) kept.
Proof.
  intros Hnd Hrun.
  destruct (run_trace lower net now db db' s Hnd Hrun)
    as (items & kept & dups & Hitems & Hok & -> & -> & Hsub & Hkeep & _).
  destruct (store_all_rows now (topics db) kept
              (Forall_sublist_of _ _ _ Hsub Hok) db)
    as (new_posts & new_logs & Hposts & _ & Hmade & _).
  exists items, kept, new_posts. split_and!; try done.
  apply Forall_and. split; [done|].
  eapply Forall_sublist_of; [exact Hsub|].
  by apply (fetch_items_active net now).
Qed.

(** X3: the tables' constraints (primary keys, unique topic name and post
    uid, both foreign keys) hold after a run, whatever its outcome, when
    they hold before it. *)
Theorem run_preserves_constraints (net : network) (now : Z) (db : DB) :
  db_wf db → db_wf (fetch_all_topics lower net now db).1.
Proof.
  intros Hwf.
  destruct (fetch_all_topics lower net now db) as [db' [s|e]] eqn:Hrun; simpl.
  - destruct (run_trace lower net now db db' s (wf_post_uids db Hwf) Hrun)
      as (_ & _ & _ & _ & _ & _ & _ & _ & _ & _ & _ & Hwf').
    by apply Hwf'.
  - by rewrite (run_failure_rollback lower net now db db' e Hrun).
Qed.

(** X4: after a run that succeeds, every fetched entry that passes its
    topic's keyword filter is persisted: a post carries its uid. *)
Theorem run_persists_every_kept_entry (net : network) (now : Z) (db db' : DB)
    (s : stats) :
  NoDup (uids db) →
  fetch_all_topics lower net now db = (db', Ok s) →
  ∃ items,
    fetch_items lower net now (_get_active_topics db) = Ok items
    ∧ ∀ i, i ∈ items → item_keep lower i = true → persisted db' i = true.
Proof.
  intros Hnd Hrun. unfold fetch_all_topics in Hrun. simpl in Hrun.
  destruct (ingest_topics lower net now _ _) as [[session s']|err] eqn:Hbody;
    [|done].
  injection Hrun as -> ->.
  destruct (ingest_topics_fetched lower _ _ _ _ _ Hbody) as [items Hitems].
  rewrite (ingest_topics_items lower _ _ _ _ _ Hitems) in Hbody.
  assert (Forall (item_ok (topics db)) items) as Hok.
  { apply (fetch_items_ok lower net now _ (_get_active_topics db)); [|done].
    intros t. apply active_topic_row. }
  destruct (ingest_items_ok lower now items db
              {| topics_checked := length (_get_active_topics db);
                 posts_created := 0; duplicates := 0 |} Hnd Hok)
    as (db1 & s1 & Hrun & _ & _ & _ & _ & Hall).
  rewrite Hbody in Hrun. injection Hrun as <- <-.
  exists items. split; [done|]. intros i Hi Hkeep.
  destruct (Hall i Hi) as [?|?]; [done | congruence].
Qed.

Lemma accepts_all_keep (i : Topic * entry) :
  accepts_all i.1 → item_keep lower i = true.
Proof. unfold item_keep. by intros [->| ->]. Qed.

(** X5: in the statistics of a run that succeeds, [topics_checked] is the
    number of active topics, and [posts_created] plus [duplicates] is at
    most the number of fetched entries; the two are equal when every active
    topic has null or empty keywords, so that no entry is filtered out. *)
Theorem run_counters_account_for_entries (net : network) (now : Z)
    (db db' : DB) (s : stats) :
  NoDup (uids db) →
  fetch_all_topics lower net now db = (db', Ok s) →
  topics_checked s = length (_get_active_topics db)
  ∧ ∃ items,
      fetch_items lower net now (_get_active_topics db) = Ok items
      ∧ (posts_created s + duplicates s ≤ length items)%nat
      ∧ ((∀ topic, topic ∈ _get_active_topics db → accepts_all topic) →
         (posts_created s + duplicates s = length items)%nat).
Proof.
  intros Hnd Hrun.
  destruct (run_trace lower net now db db' s Hnd Hrun)
    as (items & kept & dups & Hitems & _ & _ & -> & _ & _ & Hle & Heq & _).
  split; [done|]. exists items. simpl. split_and!; try done.
  intros Hall. apply Heq. intros i Hi. apply accepts_all_keep, Hall.
  pose proof (fetch_items_active net now _ items Hitems) as Hactive.
  by eapply Forall_forall in Hactive.
Qed.

Lemma fetch_feed_reads_url (net net' : network) (now : Z)
    (source feed_url : string) :
  net feed_url = net' feed_url →
  fetch_feed lower net now source feed_url
  = fetch_feed lower net' now source feed_url.
Proof.
  intros Hurl. unfold fetch_feed. rewrite fetchers_lookup.
  destruct (bool_decide _); [|done].
  unfold _fetch_generic_feed, _fetch_and_parse. by rewrite Hurl.
Qed.

Lemma ingest_topics_reads_urls (net net' : network) (now : Z)
    (active : list Topic) :
  (∀ topic, topic ∈ active → net (topic_feed_url topic)
                             = net' (topic_feed_url topic)) →
  ∀ st, ingest_topics lower net now active st
        = ingest_topics lower net' now active st.
Proof.
  induction active as [|topic active IH]; intros Hurls st; simpl; [done|].
  rewrite (fetch_feed_reads_url net net') by (apply Hurls, elem_of_cons; by left).
  destruct (fetch_feed lower net' now _ _).2 as [entries|err]; [|done]. simpl.
  destruct (ingest_entries lower now topic entries st) as [st'|err]; [|done].
  simpl. apply IH. intros t Ht. apply Hurls, elem_of_cons. by right.
Qed.

(** X6: a run reads the network at the feed URLs of the active topics
    only: two networks that agree there give the same run, so the feeds of
    inactive topics are never fetched and cannot fail it. *)
Theorem run_reads_active_feeds_only (net net' : network) (now : Z) (db : DB) :
  (∀ topic, topic ∈ topics db → topic_is_active topic = true →
            net (topic_feed_url topic) = net' (topic_feed_url topic)) →
  fetch_all_topics lower net now db = fetch_all_topics lower net' now db.
Proof.
  intros Hurls. unfold fetch_all_topics. simpl.
  rewrite (ingest_topics_reads_urls net net'); [done|].
  intros topic Hin. unfold _get_active_topics in Hin.
  apply list_elem_of_In, filter_In in Hin as [Hin Hactive].
  apply Hurls; [by apply list_elem_of_In | done].
Qed.

End RunProperties.

(** ** Looking topics up *)

Lemma find_id_unique (ts : list Topic) (t : Topic) :
  NoDup (map topic_id ts) → t ∈ ts →
  List.find (fun x => bool_decide (topic_id x = topic_id t)) ts = Some t.
Proof.
  induction ts as [|x ts IH]; [intros _ Hin; inversion Hin|]. simpl.
  intros [Hx Hnd]%NoDup_cons [->|Hin]%elem_of_cons.
  - by rewrite bool_decide_eq_true_2.
  - rewrite bool_decide_eq_false_2; [by apply IH|].
    intros Heq. apply Hx. rewrite Heq. apply list_elem_of_fmap. by exists t.
Qed.

Lemma find_id_some (ts : list Topic) (id : Z) (t : Topic) :
  List.find (fun x => bool_decide (topic_id x = id)) ts = Some t →
  t ∈ ts ∧ topic_id t = id.
Proof.
  intros [Hin Hid]%find_some. split; [by apply list_elem_of_In|].
  by apply bool_decide_eq_true_1 in Hid.
Qed.

Lemma find_id_none (ts : list Topic) (id : Z) :
  List.find (fun x => bool_decide (topic_id x = id)) ts = None ↔
  id ∉ map topic_id ts.
Proof.
  induction ts as [|x ts IH]; simpl.
  - split; [intros _ Hin; inversion Hin | done].
  - rewrite not_elem_of_cons. case_bool_decide as Hx.
    + split; [done | intros [Hne _]; congruence].
    + rewrite IH. split; [by split; [congruence|] | by intros [_ ?]].
Qed.

Lemma filter_name_unique (ts : list Topic) (t : Topic) :
  NoDup (map topic_name ts) → t ∈ ts →
  List.filter (fun x => bool_decide (topic_name x = topic_name t)) ts = [t].
Proof.
  induction ts as [|x ts IH]; [intros _ Hin; inversion Hin|]. simpl.
  intros [Hx Hnd]%NoDup_cons [->|Hin]%elem_of_cons.
  - rewrite bool_decide_eq_true_2 by done. f_equal.
    clear IH Hnd. induction ts as [|y ts IH]; [done|]. simpl.
    apply not_elem_of_cons in Hx as [Hne Hx].
    rewrite bool_decide_eq_false_2 by congruence. by apply IH.
  - rewrite bool_decide_eq_false_2; [by apply IH|].
    intros Heq. apply Hx. rewrite Heq. apply list_elem_of_fmap. by exists t.
Qed.

Lemma get_topic_outcome (eng : Engine) (db : DB) (id : Z) :
  crud.get_topic eng db id =
    if binds_key eng id then
      Ok (List.find (fun t => bool_decide (topic_id t = id)) (topics db))
    else
      Err (OverflowError "Python int too large to convert to SQLite INTEGER").
Proof. unfold crud.get_topic, bind_param. by destruct (binds_key eng id). Qed.

Lemma get_topic_returns (eng : Engine) (db : DB) (id : Z)
    (found : option Topic) :
  crud.get_topic eng db id = Ok found ↔
  binds_key eng id = true
  ∧ List.find (fun t => bool_decide (topic_id t = id)) (topics db) = found.
Proof.
  rewrite get_topic_outcome. destruct (binds_key eng id).
  - split; [by intros [= ->] | by intros [_ ->]].
  - split; [done | by intros [? _]].
Qed.

(** X7: under unique ids and names, looking a stored topic up by its name,
    or by its id when the driver can bind the id, returns that very row; a
    lookup by id that finds a row finds a stored row with this id; it finds
    none exactly when the driver can bind the id and no row has it; and it
    raises exactly when the driver cannot bind the id. *)
Theorem topic_lookup_finds_the_row (eng : Engine) (db : DB) (t : Topic)
    (id : Z) :
  NoDup (map topic_id (topics db)) →
  NoDup (map topic_name (topics db)) →
  t ∈ topics db →
  (binds_key eng (topic_id t) = true →
   crud.get_topic eng db (topic_id t) = Ok (Some t))
  ∧ crud.get_topic_by_name db (topic_name t) = Ok (Some t)
  ∧ (∀ found, crud.get_topic eng db id = Ok (Some found) →
              found ∈ topics db ∧ topic_id found = id)
  ∧ (crud.get_topic eng db id = Ok None ↔
     binds_key eng id = true ∧ id ∉ map topic_id (topics db))
  ∧ ((∃ e, crud.get_topic eng db id = Err e) ↔ binds_key eng id = false).
Proof.
  intros Hids Hnames Hin. rewrite !get_topic_outcome.
  unfold crud.get_topic_by_name. split_and!.
  - intros ->. f_equal. by apply find_id_unique.
  - by rewrite filter_name_unique.
  - intros found. destruct (binds_key eng id); [|done].
    intros [= Hfound]. by apply find_id_some.
  - destruct (binds_key eng id).
    + rewrite <- find_id_none. split; [by intros [= ->] | by intros [_ ->]].
    + split; [done | by intros [? _]].
  - destruct (binds_key eng id); split; try done; [by intros [? ?] | eauto].
Qed.

(** ** Creating a topic *)

Lemma create_topic_outcome (db : DB) (now : Z) (topic_in : TopicCreate) :
  main.create_topic db now topic_in =
    if bool_decide (create_name topic_in ∈ map topic_name (topics db)) then
      (db, HTTPException HTTP_400_BAD_REQUEST
             "Topic with the same name already exists.")
    else
      ({| topics := topics db ++
            [ {| topic_id := next_id (map topic_id (topics db));
                 topic_name := create_name topic_in;
                 topic_source := create_source topic_in;
                 topic_feed_url := create_feed_url topic_in;
                 topic_keywords := Some (create_keywords topic_in);
                 topic_is_active := create_is_active topic_in;
                 topic_created_at := now;
                 topic_updated_at := now |} ];
          posts := posts db;
          push_logs := push_logs db |},
       Returned HTTP_201_CREATED
         {| read_name := create_name topic_in;
            read_source := create_source topic_in;
            read_feed_url := create_feed_url topic_in;
            read_keywords := create_keywords topic_in;
            read_is_active := create_is_active topic_in;
            read_id := next_id (map topic_id (topics db));
            read_created_at := now;
            read_updated_at := now |}).
Proof.
  unfold main.create_topic, crud.create_topic, insert_topic.
  by destruct (bool_decide _).
Qed.




(** X9: creating a topic, whether it succeeds or is refused, keeps the
    tables' constraints. *)
Theorem create_topic_preserves_constraints (db : DB) (now : Z)
    (topic_in : TopicCreate) :
  db_wf db → db_wf (main.create_topic db now topic_in).1.
Proof.
  intros Hwf. rewrite create_topic_outcome. case_bool_decide as Hname; [done|].
  destruct Hwf as [Hti Htn Hpi Hpu Hli Hpt Hlp].
  constructor; simpl; try done.
  - rewrite map_app. simpl. apply NoDup_snoc; [done | apply next_id_not_in].
  - rewrite map_app. simpl. by apply NoDup_snoc.
  - intros p Hp. rewrite map_app. apply elem_of_app. left. by apply Hpt.
Qed.

(** ** Updating a topic *)

Lemma map_replace_ids (ts : list Topic) (id : Z) (row : Topic) :
  topic_id row = id →
  map topic_id
      (map (fun other => if bool_decide (topic_id other = id)
                         then row else other) ts)
  = map topic_id ts.
Proof.
  intros Hid. rewrite map_map. apply map_ext. intros other.
  case_bool_decide; congruence.
Qed.

Lemma map_replace_absent (ts : list Topic) (id : Z) (row : Topic) :
  id ∉ map topic_id ts →
  map (fun other => if bool_decide (topic_id other = id) then row else other)
      ts = ts.
Proof.
  induction ts as [|x ts IH]; [done|]. simpl.
  intros [Hne Hnotin]%not_elem_of_cons.
  rewrite bool_decide_eq_false_2 by congruence. by rewrite IH.
Qed.

Lemma map_replace_names (ts : list Topic) (id : Z) (row : Topic) :
  NoDup (map topic_id ts) →
  NoDup (map topic_name ts) →
  (∀ other, other ∈ ts → topic_id other ≠ id →
            topic_name other ≠ topic_name row) →
  NoDup (map topic_name
           (map (fun other => if bool_decide (topic_id other = id)
                              then row else other) ts)).
Proof.
  induction ts as [|x ts IH]; [intros; apply NoDup_nil_2|]. simpl.
  intros [Hxid Hids]%NoDup_cons [Hxname Hnames]%NoDup_cons Hother.
  case_bool_decide as Hx.
  - rewrite map_replace_absent by congruence.
    apply NoDup_cons. split; [|done].
    intros (other & Heq & Hin)%list_elem_of_fmap.
    apply (Hother other); [apply elem_of_cons; by right | | done].
    intros Hid. apply Hxid. rewrite Hx, <- Hid. apply list_elem_of_fmap.
    by exists other.
  - apply NoDup_cons. split.
    + intros (y & Heq & Hin)%list_elem_of_fmap.
      apply list_elem_of_fmap in Hin as (other & -> & Hin).
      case_bool_decide as Hy.
      * apply (Hother x); [apply elem_of_cons; by left | done | done].
      * apply Hxname. rewrite Heq. apply list_elem_of_fmap. by exists other.
    + apply IH; try done. intros other Hin. apply Hother, elem_of_cons.
      by right.
Qed.

Lemma existsb_name_clash (ts : list Topic) (id : Z) (name : string) :
  existsb (fun other => bool_decide (topic_id other ≠ id) &&
                        bool_decide (topic_name other = name)) ts = false →
  ∀ other, other ∈ ts → topic_id other ≠ id → topic_name other ≠ name.
Proof.
  intros Hnone other Hin Hid Hname.
  assert (existsb (fun other => bool_decide (topic_id other ≠ id) &&
                                bool_decide (topic_name other = name)) ts
          = true) as Habs; [|congruence].
  apply existsb_exists. exists other. split; [by apply list_elem_of_In|].
  by rewrite !bool_decide_eq_true_2.
Qed.

Lemma update_row_wf (db db' : DB) (now : Z) (topic updated : Topic)
    (attrs : TopicAttrs) :
  db_wf db → update_row db now topic attrs = Ok (db', updated) → db_wf db'.
Proof.
  intros Hwf. unfold update_row. case_bool_decide; [by intros [= <- _]|].
  destruct (attr_name attrs) as [name|]; [|done].
  destruct (attr_source attrs) as [source|]; [|done].
  destruct (attr_feed_url attrs) as [feed_url|]; [|done].
  destruct (attr_is_active attrs) as [is_active|]; [|done].
  destruct (existsb _ _) eqn:Hclash; [done|]. intros [= <- _].
  destruct Hwf as [Hti Htn Hpi Hpu Hli Hpt Hlp].
  constructor; simpl; try done.
  - by rewrite map_replace_ids.
  - apply map_replace_names; try done. simpl.
    by apply existsb_name_clash.
  - intros p Hp. rewrite map_replace_ids by done. by apply Hpt.
Qed.

(** X10: updating a topic, whatever the answer, keeps the tables'
    constraints; in particular no update can give two topics one name. *)
Theorem update_topic_preserves_constraints (eng : Engine) (db : DB)
    (now : Z) (id : Z) (topic_in : TopicUpdate) :
  db_wf db → db_wf (main.update_topic eng db now id topic_in).1.
Proof.
  intros Hwf. unfold main.update_topic.
  destruct (crud.get_topic eng db id) as [[topic|]|err]; [|done|done].
  destruct (crud.update_topic db now topic topic_in) as [[db' updated]|e]
    eqn:Hupdate.
  - unfold main.respond. apply (update_row_wf _ _ _ _ _ _ Hwf) in Hupdate.
    by destruct (model_validate updated).
  - by destruct e.
Qed.


Lemma find_replace (ts : list Topic) (id : Z) (row : Topic) :
  topic_id row = id → id ∈ map topic_id ts →
  List.find (fun x => bool_decide (topic_id x = id))
    (map (fun other => if bool_decide (topic_id other = id)
                       then row else other) ts)
  = Some row.
Proof.
  intros Hrow. induction ts as [|x ts IH]; [intros Hin; inversion Hin|].
  simpl. intros Hin. destruct (decide (topic_id x = id)) as [Hx|Hx].
  - rewrite (bool_decide_eq_true_2 _ Hx). simpl.
    by rewrite (bool_decide_eq_true_2 _ Hrow).
  - rewrite (bool_decide_eq_false_2 _ Hx). simpl.
    rewrite (bool_decide_eq_false_2 _ Hx). apply IH.
    apply elem_of_cons in Hin as [?|?]; [congruence | done].
Qed.

Lemma no_name_clash (db : DB) (topic : Topic) :
  NoDup (map topic_name (topics db)) → topic ∈ topics db →
  existsb (fun other => bool_decide (topic_id other ≠ topic_id topic) &&
                        bool_decide (topic_name other = topic_name topic))
          (topics db) = false.
Proof.
  intros Hnames Hin. destruct (existsb _ _) eqn:Hclash; [|done].
  apply existsb_exists in Hclash as (other & Hother & Hboth).
  apply andb_prop in Hboth as [Hid Hname].
  apply bool_decide_eq_true_1 in Hid, Hname.
  apply list_elem_of_In in Hother.
  destruct Hid. f_equal.
  by apply (NoDup_map_inj topic_name (topics db)).
Qed.

(** X12: a payload that sets only [keywords], to null, on a topic whose
    keywords are not null is committed: the stored row has null keywords
    and the time of the update, the other columns as before.  The endpoint
    then fails on building its answer (an unhandled validation error, a
    500), and so does every later read of the topic by id. *)
Theorem update_null_keywords_commits_then_fails (eng : Engine) (db : DB)
    (now : Z) (id : Z) (topic : Topic) (topic_in : TopicUpdate) :
  db_wf db →
  crud.get_topic eng db id = Ok (Some topic) →
  topic_keywords topic ≠ None →
  topic_in = {| update_name := None; update_source := None;
                update_feed_url := None; update_keywords := Some None;
                update_is_active := None |} →
  ∃ db',
    main.update_topic eng db now id topic_in
    = (db', Unhandled
              (ValidationError "keywords: Input should be a valid list"))
    ∧ crud.get_topic eng db' id
      = Ok (Some {| topic_id := topic_id topic;
                    topic_name := topic_name topic;
                    topic_source := topic_source topic;
                    topic_feed_url := topic_feed_url topic;
                    topic_keywords := None;
                    topic_is_active := topic_is_active topic;
                    topic_created_at := topic_created_at topic;
                    topic_updated_at := now |})
    ∧ posts db' = posts db
    ∧ push_logs db' = push_logs db
    ∧ main.get_topic eng db' id
      = Unhandled (ValidationError "keywords: Input should be a valid list").
Proof.
  intros Hwf Hget Hkw ->.
  destruct (proj1 (get_topic_returns _ _ _ _) Hget) as [Hbinds Hfind].
  destruct (find_id_some _ _ _ Hfind) as [Hin Hid].
  unfold main.update_topic. rewrite Hget.
  unfold crud.update_topic, update_row. rewrite setattr_dump. simpl.
  rewrite bool_decide_eq_false_2
    by (unfold attrs_of; intros [=]; congruence).
  rewrite (no_name_clash db topic (wf_topic_names db Hwf) Hin).
  unfold main.respond, model_validate. simpl.
  eexists. split; [reflexivity|].
  assert (crud.get_topic eng
            {| topics :=
                 map (fun other =>
                        if bool_decide (topic_id other = topic_id topic)
                        then {| topic_id := topic_id topic;
                                topic_name := topic_name topic;
                                topic_source := topic_source topic;
                                topic_feed_url := topic_feed_url topic;
                                topic_keywords := None;
                                topic_is_active := topic_is_active topic;
                                topic_created_at := topic_created_at topic;
                                topic_updated_at := now |}
                        else other) (topics db);
               posts := posts db; push_logs := push_logs db |} id
          = Ok (Some {| topic_id := topic_id topic;
                        topic_name := topic_name topic;
                        topic_source := topic_source topic;
                        topic_feed_url := topic_feed_url topic;
                        topic_keywords := None;
                        topic_is_active := topic_is_active topic;
                        topic_created_at := topic_created_at topic;
                        topic_updated_at := now |})) as Hfound.
  { apply get_topic_returns. split; [done|]. simpl. rewrite <- Hid.
    apply find_replace; [done|].
    apply list_elem_of_fmap. by exists topic. }
  split_and!; try done. unfold main.get_topic. by rewrite Hfound.
Qed.

(** ** Deleting a topic *)

Lemma elem_of_filter_bool {A : Type} (f : A → bool) (l : list A) (x : A) :
  x ∈ List.filter f l ↔ x ∈ l ∧ f x = true.
Proof. by rewrite !list_elem_of_In, filter_In. Qed.


Lemma NoDup_map_filter {A B : Type} (g : A → B) (f : A → bool) (l : list A) :
  NoDup (map g l) → NoDup (map g (List.filter f l)).
Proof.
  induction l as [|x l IH]; [done|]. simpl.
  intros [Hx Hnd]%NoDup_cons. destruct (f x); simpl; [|by apply IH].
  apply NoDup_cons. split; [|by apply IH].
  intros (y & Heq & [Hy _]%elem_of_filter_bool)%list_elem_of_fmap.
  apply Hx. rewrite Heq. apply list_elem_of_fmap. by exists y.
Qed.

(** X14: deleting a topic keeps the tables' constraints: no post is left
    without its topic and no log without its post. *)
Theorem delete_topic_preserves_constraints (eng : Engine) (db : DB)
    (id : Z) :
  db_wf db → db_wf (main.delete_topic eng db id).1.
Proof.
  intros Hwf. unfold main.delete_topic.
  destruct (crud.get_topic eng db id) as [[topic|]|err]; [|done|done]. simpl.
  destruct Hwf as [Hti Htn Hpi Hpu Hli Hpt Hlp].
  constructor; unfold uids in *; simpl; try by apply NoDup_map_filter.
  - intros p [Hp Hkeep]%elem_of_filter_bool.
    apply negb_true_iff, bool_decide_eq_false_1 in Hkeep.
    destruct (proj1 (list_elem_of_fmap _ _ _) (Hpt p Hp)) as (t & Heq & Ht).
    apply list_elem_of_fmap. exists t. split; [done|].
    apply elem_of_filter_bool. split; [done|].
    apply negb_true_iff, bool_decide_eq_false_2. congruence.
  - intros l [Hl Hkeep]%elem_of_filter_bool.
    apply negb_true_iff, bool_decide_eq_false_1 in Hkeep.
    destruct (proj1 (list_elem_of_fmap _ _ _) (Hlp l Hl)) as (p & Heq & Hp).
    apply list_elem_of_fmap. exists p. split; [done|].
    apply elem_of_filter_bool. split; [done|].
    apply negb_true_iff, bool_decide_eq_false_2. intros Howner.
    apply Hkeep, list_elem_of_fmap. exists p. split; [done|].
    apply elem_of_filter_bool. by rewrite bool_decide_eq_true_2.
Qed.

(** ** Statistics *)

Lemma filter_length_split {A : Type} (f : A → bool) (l : list A) :
  (length (List.filter f l) + length (List.filter (fun x => negb (f x)) l)
   = length l)%nat.
Proof.
  induction l as [|x l IH]; [done|]. simpl. destruct (f x); simpl; lia.
Qed.

Lemma filter_id_length (ts : list Topic) (t : Topic) :
  NoDup (map topic_id ts) → t ∈ ts →
  length (List.filter (fun x => bool_decide (topic_id x = topic_id t)) ts)
  = 1%nat.
Proof.
  induction ts as [|x ts IH]; [intros _ Hin; inversion Hin|]. simpl.
  intros [Hx Hnd]%NoDup_cons [->|Hin]%elem_of_cons.
  - rewrite bool_decide_eq_true_2 by done. simpl. f_equal.
    clear IH Hnd. induction ts as [|y ts IH]; [done|]. simpl.
    apply not_elem_of_cons in Hx as [Hne Hx].
    rewrite bool_decide_eq_false_2 by congruence. by apply IH.
  - rewrite bool_decide_eq_false_2; [by apply IH|].
    intros Heq. apply Hx. rewrite Heq. apply list_elem_of_fmap. by exists t.
Qed.

(** X15: deleting an existing topic lowers [topics_total] by one and
    [posts_total] by the total that [list_posts] reports for the topic,
    whatever page of the topic's posts is asked for; [logs_total] does not
    grow. *)
Theorem delete_topic_lowers_stats (eng : Engine) (db : DB) (id : Z)
    (topic : Topic) :
  NoDup (map topic_id (topics db)) →
  crud.get_topic eng db id = Ok (Some topic) →
  topics_total (main.system_stats db)
  = S (topics_total (main.system_stats (main.delete_topic eng db id).1))
  ∧ (∀ skip limit rows total,
       crud.list_posts eng db skip limit (Some id) None = Ok (rows, total) →
       posts_total (main.system_stats db)
       = (posts_total (main.system_stats (main.delete_topic eng db id).1)
          + total)%nat)
  ∧ (logs_total (main.system_stats (main.delete_topic eng db id).1)
     ≤ logs_total (main.system_stats db))%nat.
Proof.
  intros Hids Hget.
  destruct (proj1 (get_topic_returns _ _ _ _) Hget) as [Hbinds Hfind].
  destruct (find_id_some _ _ _ Hfind) as [Hin Hid].
  unfold main.delete_topic. rewrite Hget.
  unfold main.system_stats, crud.get_system_stats, crud.delete_topic,
    delete_row. simpl. rewrite Hid. split_and!.
  - pose proof (filter_length_split
                  (fun t => bool_decide (topic_id t = id)) (topics db)) as Hsplit.
    pose proof (filter_id_length _ _ Hids Hin) as Hone. rewrite Hid in Hone.
    rewrite Hone in Hsplit. lia.
  - intros skip limit rows total. unfold crud.list_posts.
    intros (_ & _ & (_ & _ & [= _ <-])%bind_ok)%bind_ok.
    pose proof (filter_length_split
                  (fun p => bool_decide (post_topic_id p = id)) (posts db)).
    lia.
  - pose proof (filter_length_split
                  (fun l => bool_decide
                              (log_post_id l
                               ∈ map post_id
                                   (List.filter
                                      (fun p =>
                                         bool_decide (post_topic_id p = id))
                                      (posts db)))) (push_logs db)).
    lia.
Qed.

(** X16: after a run that succeeds the statistics show the same topics,
    and [posts_created] more posts and as many more logs; the number of
    active topics they show is the run's [topics_checked]. *)
Theorem stats_after_run (lower : string → string) (net : network) (now : Z)
    (db db' : DB) (s : stats) :
  NoDup (uids db) →
  fetch_all_topics lower net now db = (db', Ok s) →
  main.system_stats db'
  = {| topics_total := topics_total (main.system_stats db);
       active_topics := active_topics (main.system_stats db);
       posts_total :=
         (posts_total (main.system_stats db) + posts_created s)%nat;
       logs_total :=
         (logs_total (main.system_stats db) + posts_created s)%nat |}
  ∧ active_topics (main.system_stats db) = topics_checked s.
Proof.
  intros Hnd Hrun.
  destruct (run_trace lower net now db db' s Hnd Hrun)
    as (items & kept & dups & _ & Hok & -> & -> & Hsub & _).
  destruct (store_all_rows now (topics db) kept
              (Forall_sublist_of _ _ _ Hsub Hok) db)
    as (new_posts & new_logs & Hposts & Hlogs & Hmade & Hlinked).
  unfold main.system_stats, crud.get_system_stats. simpl.
  rewrite store_all_topics, Hposts, Hlogs, !length_app.
  rewrite (Forall2_length _ _ _ Hlinked), (Forall2_length _ _ _ Hmade).
  done.
Qed.

(** ** Listing *)

#[local] Instance by_id_trans : Transitive by_id.
Proof. unfold by_id. intros x y z. lia. Qed.
#[local] Instance by_id_total : Total by_id.
Proof. unfold by_id. intros x y. lia. Qed.
#[local] Instance newest_post_first_trans : Transitive newest_post_first.
Proof. unfold newest_post_first. intros x y z. lia. Qed.
#[local] Instance newest_post_first_total : Total newest_post_first.
Proof. unfold newest_post_first. intros x y. lia. Qed.
#[local] Instance newest_log_first_trans : Transitive newest_log_first.
Proof. unfold newest_log_first. intros x y z. lia. Qed.
#[local] Instance newest_log_first_total : Total newest_log_first.
Proof. unfold newest_log_first. intros x y. lia. Qed.

Lemma page_length {A : Type} (skip limit : nat) (l : list A) :
  length (page skip limit l) = (limit `min` (length l - skip))%nat.
Proof. unfold page. by rewrite length_take, length_drop. Qed.

Lemma page_app {A : Type} (skip a b : nat) (l : list A) :
  page skip a l ++ page (skip + a) b l = page skip (a + b) l.
Proof. unfold page. by rewrite <- drop_drop, take_take_drop. Qed.

Lemma page_all {A : Type} (l : list A) : page 0 (length l) l = l.
Proof. unfold page. simpl. by apply take_ge. Qed.

Lemma page_elem_of {A : Type} (skip limit : nat) (l : list A) (x : A) :
  x ∈ page skip limit l → x ∈ l.
Proof.
  unfold page. intros Hx. eapply elem_of_sublist; [exact Hx|].
  etrans; [apply sublist_take | apply sublist_drop].
Qed.

Lemma page_sorted {A : Type} (R : relation A) (skip limit : nat)
    (l : list A) :
  StronglySorted R l → StronglySorted R (page skip limit l).
Proof.
  unfold page. intros Hl.
  rewrite <- (take_drop skip l) in Hl.
  apply StronglySorted_app_1_r in Hl.
  rewrite <- (take_drop limit (drop skip l)) in Hl.
  by apply StronglySorted_app_1_l in Hl.
Qed.

Lemma sqlite_sorts : engine_sorts sqlite.
Proof.
  constructor; simpl; intros rows.
  - apply StronglySorted_merge_sort; apply _.
  - apply merge_sort_Permutation.
  - apply StronglySorted_merge_sort; apply _.
  - apply merge_sort_Permutation.
Qed.

Lemma list_topics_outcome (eng : Engine) (db : DB) (skip limit : N) :
  crud.list_topics eng db skip limit =
    if page_binds eng skip limit then
      Ok (page (N.to_nat skip) (N.to_nat limit) (merge_sort by_id (topics db)),
          length (topics db))
    else Err (OverflowError "Python int too large to convert to SQLite INTEGER").
Proof.
  unfold crud.list_topics, bind_param, page_binds. by destruct (_ && _).
Qed.

(** X17: [list_topics] raises exactly when the driver cannot bind [skip]
    or [limit].  When it returns, it reports the number of topics as total
    whatever the page asked for; the page holds [min limit (total - skip)]
    topics in ascending id order; consecutive pages join into the larger
    page; and the page from 0 of size total holds every topic exactly
    once. *)
Theorem list_topics_pages (eng : Engine) (db : DB) (skip limit more : N) :
  (crud.list_topics eng db skip limit = Err (OverflowError "Python int too large to convert to SQLite INTEGER") ↔
   page_binds eng skip limit = false)
  ∧ ((∃ out, crud.list_topics eng db skip limit = Ok out) ↔
     page_binds eng skip limit = true)
  ∧ (∀ rows total,
       crud.list_topics eng db skip limit = Ok (rows, total) →
       total = length (topics db)
       ∧ length rows = (N.to_nat limit `min` (total - N.to_nat skip))%nat
       ∧ StronglySorted by_id rows
       ∧ (∀ next joined t t',
            crud.list_topics eng db (skip + limit) more = Ok (next, t) →
            crud.list_topics eng db skip (limit + more) = Ok (joined, t') →
            rows ++ next = joined))
  ∧ (∀ rows total,
       crud.list_topics eng db 0 (N.of_nat (length (topics db)))
       = Ok (rows, total) →
       rows ≡ₚ topics db).
Proof.
  rewrite !list_topics_outcome. split_and!.
  - by destruct (page_binds eng skip limit).
  - destruct (page_binds eng skip limit); split; try done; [eauto|].
    by intros [? ?].
  - destruct (page_binds eng skip limit); [|done].
    intros rows total [= <- <-]. split_and!.
    + done.
    + rewrite page_length.
      by rewrite (Permutation_length (merge_sort_Permutation _ _)).
    + apply page_sorted, StronglySorted_merge_sort; apply _.
    + intros next joined t t'.
      destruct (page_binds eng (skip + limit) more); [|done].
      destruct (page_binds eng skip (limit + more)); [|done].
      intros [= <- _] [= <- _]. rewrite !N2Nat.inj_add. apply page_app.
  - destruct (page_binds eng 0 _); [|done]. intros rows total [= <- _].
    rewrite Nat2N.id.
    rewrite <- (Permutation_length (merge_sort_Permutation by_id (topics db))).
    change (N.to_nat 0) with 0%nat.
    rewrite page_all. apply merge_sort_Permutation.
Qed.

Lemma filter_filter_bool {A : Type} (f g : A → bool) (l : list A) :
  List.filter g (List.filter f l) = List.filter (fun x => f x && g x) l.
Proof.
  induction l as [|x l IH]; [done|]. simpl.
  destruct (f x); simpl; [destruct (g x)|]; by rewrite IH.
Qed.

Lemma join_row_unique (ts : list Topic) (p : Post) (source : string) :
  NoDup (map topic_id ts) →
  map (fun _ : Topic => p)
      (List.filter (fun t => bool_decide (topic_id t = post_topic_id p) &&
                             bool_decide (topic_source t = source)) ts)
  = if existsb (fun t => bool_decide (topic_id t = post_topic_id p) &&
                         bool_decide (topic_source t = source)) ts
    then [p] else [].
Proof.
  induction ts as [|x ts IH]; [done|]. simpl.
  intros [Hx Hnd]%NoDup_cons.
  destruct (bool_decide (topic_id x = post_topic_id p)) eqn:Hid; simpl;
    [|by apply IH].
  apply bool_decide_eq_true_1 in Hid.
  assert (List.filter
            (fun t => bool_decide (topic_id t = post_topic_id p) &&
                      bool_decide (topic_source t = source)) ts = [])
    as Hrest.
  { clear IH Hnd. induction ts as [|y ts IH]; [done|]. simpl.
    apply not_elem_of_cons in Hx as [Hne Hx].
    rewrite bool_decide_eq_false_2 by congruence. simpl. by apply IH. }
  destruct (bool_decide (topic_source x = source)) eqn:Hsrc; simpl.
  - by rewrite Hrest.
  - rewrite Hrest. simpl.
    destruct (existsb _ ts) eqn:Hex; [|done].
    apply existsb_exists in Hex as (t & Ht & Hboth).
    assert (t ∈ List.filter
              (fun t => bool_decide (topic_id t = post_topic_id p) &&
                        bool_decide (topic_source t = source)) ts) as Habs
      by (apply elem_of_filter_bool; by rewrite list_elem_of_In).
    rewrite Hrest in Habs. inversion Habs.
Qed.

Lemma join_source_filter (rows : list Post) (ts : list Topic)
    (source : string) :
  NoDup (map topic_id ts) →
  join_source rows ts source
  = List.filter
      (fun p => existsb (fun t => bool_decide (topic_id t = post_topic_id p) &&
                                  bool_decide (topic_source t = source)) ts)
      rows.
Proof.
  intros Hids. unfold join_source.
  induction rows as [|p rows IH]; [done|]. simpl.
  rewrite join_row_unique by done. rewrite IH.
  by destruct (existsb _ ts).
Qed.

Lemma filter_true {A : Type} (l : list A) :
  List.filter (fun _ : A => true) l = l.
Proof. induction l as [|x l IH]; [done|]. simpl. by rewrite IH. Qed.

Lemma list_posts_outcome (eng : Engine) (db : DB) (skip limit : N)
    (by_topic : option Z) (by_source : option string) :
  NoDup (map topic_id (topics db)) →
  crud.list_posts eng db skip limit by_topic by_source =
    if key_binds eng by_topic && page_binds eng skip limit then
      Ok (page (N.to_nat skip) (N.to_nat limit)
            (posts_newest_first eng
               (List.filter (post_matches (topics db) by_topic by_source)
                            (posts db))),
          length (List.filter (post_matches (topics db) by_topic by_source)
                              (posts db)))
    else Err (OverflowError "Python int too large to convert to SQLite INTEGER").
Proof.
  intros Hids.
  assert (match by_source with
          | Some source =>
              join_source
                match by_topic with
                | Some id =>
                    List.filter (fun p => bool_decide (post_topic_id p = id))
                                (posts db)
                | None => posts db
                end (topics db) source
          | None =>
              match by_topic with
              | Some id =>
                  List.filter (fun p => bool_decide (post_topic_id p = id))
                              (posts db)
              | None => posts db
              end
          end
          = List.filter (post_matches (topics db) by_topic by_source)
                        (posts db)) as Hstmt.
  { unfold post_matches. destruct by_topic as [id|], by_source as [source|].
    - rewrite join_source_filter by done. by rewrite filter_filter_bool.
    - apply filter_ext. intros p. by rewrite andb_true_r.
    - by rewrite join_source_filter by done.
    - by rewrite filter_true. }
  unfold crud.list_posts. rewrite Hstmt.
  unfold key_binds, page_binds, bind_param.
  destruct by_topic as [id|]; [destruct (binds_key eng id)|]; simpl;
    try done; by destruct (_ && _).
Qed.

(** X18: with unique topic ids, [list_posts] raises exactly when the
    driver cannot bind [topic_id], [skip] or [limit].  When it returns, on
    an engine that returns its rows newest first, it reports as total the
    number of posts that belong to the topic asked for and whose topic has
    the source asked for, whatever the page; the page holds
    [min limit (total - skip)] of them, most recently created first, and
    nothing else; and the page from 0 of size total holds each matching
    post exactly once. *)
Theorem list_posts_pages (eng : Engine) (db : DB) (skip limit : N)
    (by_topic : option Z) (by_source : option string) :
  NoDup (map topic_id (topics db)) →
  engine_sorts eng →
  (crud.list_posts eng db skip limit by_topic by_source = Err (OverflowError "Python int too large to convert to SQLite INTEGER") ↔
   key_binds eng by_topic && page_binds eng skip limit = false)
  ∧ ((∃ out, crud.list_posts eng db skip limit by_topic by_source = Ok out) ↔
     key_binds eng by_topic && page_binds eng skip limit = true)
  ∧ (∀ rows total,
       crud.list_posts eng db skip limit by_topic by_source
       = Ok (rows, total) →
       total = length (List.filter
                         (post_matches (topics db) by_topic by_source)
                         (posts db))
       ∧ length rows = (N.to_nat limit `min` (total - N.to_nat skip))%nat
       ∧ StronglySorted newest_post_first rows
       ∧ (∀ p, p ∈ rows →
               p ∈ posts db
               ∧ post_matches (topics db) by_topic by_source p = true)
       ∧ (∀ every t,
            crud.list_posts eng db 0 (N.of_nat total) by_topic by_source
            = Ok (every, t) →
            every ≡ₚ List.filter
                       (post_matches (topics db) by_topic by_source)
                       (posts db))).
Proof.
  intros Hids [Hsorted Hsame _ _]. rewrite !list_posts_outcome by done.
  set (matching := List.filter _ (posts db)). split_and!.
  - by destruct (_ && _).
  - destruct (_ && _); split; try done; [eauto | by intros [? ?]].
  - destruct (_ && _); [|done]. intros rows total [= <- <-]. split_and!.
    + done.
    + rewrite page_length. by rewrite (Permutation_length (Hsame _)).
    + apply page_sorted, Hsorted.
    + intros p Hp%page_elem_of. rewrite Hsame in Hp.
      by apply elem_of_filter_bool.
    + intros every t. rewrite list_posts_outcome by done.
      destruct (_ && _); [|done]. intros [= <- _].
      rewrite Nat2N.id. change (N.to_nat 0) with 0%nat.
      fold matching.
      rewrite <- (Permutation_length (Hsame matching)).
      rewrite page_all. apply Hsame.
Qed.

Lemma list_push_logs_outcome (eng : Engine) (db : DB) (skip limit : N)
    (status : option string) :
  crud.list_push_logs eng db skip limit status =
    if page_binds eng skip limit then
      Ok (page (N.to_nat skip) (N.to_nat limit)
            (logs_newest_first eng
               (List.filter (log_matches status) (push_logs db))),
          length (List.filter (log_matches status) (push_logs db)))
    else Err (OverflowError "Python int too large to convert to SQLite INTEGER").
Proof.
  assert (match status with
          | Some st =>
              List.filter (fun l => bool_decide (log_status l = st))
                          (push_logs db)
          | None => push_logs db
          end = List.filter (log_matches status) (push_logs db)) as Hstmt.
  { unfold log_matches. destruct status as [st|]; [done|].
    by rewrite filter_true. }
  unfold crud.list_push_logs. rewrite Hstmt.
  unfold page_binds, bind_param. by destruct (_ && _).
Qed.

(** X19: [list_push_logs] raises exactly when the driver cannot bind
    [skip] or [limit].  When it returns, on an engine that returns its rows
    newest first, it reports as total the number of logs with the status
    asked for (all logs without a filter), whatever the page; the page
    holds [min limit (total - skip)] of them, most recently created first,
    and nothing else; and the page from 0 of size total holds each matching
    log exactly once. *)
Theorem list_push_logs_pages (eng : Engine) (db : DB) (skip limit : N)
    (status : option string) :
  engine_sorts eng →
  (crud.list_push_logs eng db skip limit status = Err (OverflowError "Python int too large to convert to SQLite INTEGER") ↔
   page_binds eng skip limit = false)
  ∧ ((∃ out, crud.list_push_logs eng db skip limit status = Ok out) ↔
     page_binds eng skip limit = true)
  ∧ (∀ rows total,
       crud.list_push_logs eng db skip limit status = Ok (rows, total) →
       total = length (List.filter (log_matches status) (push_logs db))
       ∧ length rows = (N.to_nat limit `min` (total - N.to_nat skip))%nat
       ∧ StronglySorted newest_log_first rows
       ∧ (∀ l, l ∈ rows → l ∈ push_logs db ∧ log_matches status l = true)
       ∧ (∀ every t,
            crud.list_push_logs eng db 0 (N.of_nat total) status
            = Ok (every, t) →
            every ≡ₚ List.filter (log_matches status) (push_logs db))).
Proof.
  intros [_ _ Hsorted Hsame]. rewrite !list_push_logs_outcome.
  set (matching := List.filter _ (push_logs db)). split_and!.
  - by destruct (page_binds eng skip limit).
  - destruct (page_binds eng skip limit); split; try done;
      [eauto | by intros [? ?]].
  - destruct (page_binds eng skip limit); [|done].
    intros rows total [= <- <-]. split_and!.
    + done.
    + rewrite page_length. by rewrite (Permutation_length (Hsame _)).
    + apply page_sorted, Hsorted.
    + intros l Hl%page_elem_of. rewrite Hsame in Hl.
      by apply elem_of_filter_bool.
    + intros every t. rewrite list_push_logs_outcome.
      destruct (page_binds eng 0 _); [|done]. intros [= <- _].
      rewrite Nat2N.id. change (N.to_nat 0) with 0%nat.
      fold matching.
      rewrite <- (Permutation_length (Hsame matching)).
      rewrite page_all. apply Hsame.
Qed.


(** ** More on the keyword filter, the normalizer and source dispatch *)





Section FilterProperties.

Variable lower : string → string.

Lemma existsb_same_elements {A : Type} (f : A → bool) (l l' : list A) :
  (∀ x, x ∈ l ↔ x ∈ l') → existsb f l = existsb f l'.
Proof.
  intros Hsame. apply eq_true_iff_eq. rewrite !existsb_exists.
  split; intros (x & Hx & Hf); exists x; split; try done;
    apply list_elem_of_In, Hsame, list_elem_of_In, Hx.
Qed.

(** X21: the keyword filter reads the keyword list as a set: two lists
    with the same keywords, in any order and with any repetition, accept
    the same texts. *)
Theorem match_keywords_same_keywords (text : value) (ks ks' : list string) :
  (∀ k, k ∈ ks ↔ k ∈ ks') →
  match_keywords lower text ks = match_keywords lower text ks'.
Proof.
  intros Hsame. unfold match_keywords.
  destruct ks as [|k ks], ks' as [|k' ks']; try done.
  - exfalso. eapply not_elem_of_nil, Hsame, elem_of_cons. by left.
  - exfalso. eapply not_elem_of_nil, Hsame, elem_of_cons. by left.
  - destruct text as [|[|c t]]; try done. by apply existsb_same_elements.
Qed.

(** X22: keywords are alternatives: a text passes two non-empty keyword
    lists joined together exactly when it passes one of them. *)
Theorem match_keywords_alternatives (text : value) (k1 k2 : string)
    (ks1 ks2 : list string) :
  match_keywords lower text ((k1 :: ks1) ++ k2 :: ks2)
  = match_keywords lower text (k1 :: ks1)
    || match_keywords lower text (k2 :: ks2).
Proof.
  destruct text as [|[|c t]]; try done.
  unfold match_keywords. cbn [app]. by rewrite <- existsb_app.
Qed.

(** X23: when the lowering of the empty string is empty, a blank keyword
    in the list makes the filter accept every non-empty text. *)
Theorem match_keywords_blank_keyword (c : ascii) (t : string)
    (ks : list string) :
  lower "" = "" → "" ∈ ks →
  match_keywords lower (VStr (String c t)) ks = true.
Proof.
  intros Hlower Hin. unfold match_keywords.
  destruct ks as [|k ks]; [done|]. apply existsb_exists. exists "".
  split; [by apply list_elem_of_In|]. rewrite Hlower.
  by destruct (lower (String c t)).
Qed.


(** X25: the uid of an entry that has an id, a guid or a link depends
    neither on the source it is fetched under nor on the time of the
    fetch; nor does the error, when the entry fails to convert. *)
Theorem uid_ignores_source_and_clock (e : raw_entry)
    (source source' : string) (now now' : Z) :
  truthy (get (raw_id e)) = true ∨ truthy (get (raw_guid e)) = true
  ∨ truthy (get (raw_link e)) = true →
  (n ← _entry_to_dict e source now;;; Ok (entry_uid n))
  = (n ← _entry_to_dict e source' now';;; Ok (entry_uid n)).
Proof.
  intros Hsome.
  assert (∀ n n',
            _entry_to_dict e source now = Ok n →
            _entry_to_dict e source' now' = Ok n' →
            entry_uid n = entry_uid n') as Huid.
  { intros n n' Hn Hn'.
    rewrite (entry_uid_cases _ _ _ _ Hn), (entry_uid_cases _ _ _ _ Hn').
    destruct (truthy (get (raw_id e))); [done|].
    destruct (truthy (get (raw_guid e))); [done|].
    destruct (truthy (get (raw_link e))); [done|].
    by destruct Hsome as [?|[?|?]]. }
  revert Huid. unfold _entry_to_dict.
  destruct (time_or _ _) as [t|]; simpl.
  - destruct (bind (timegm t) _) as [p|err]; simpl; [|done].
    intros Huid. f_equal. exact (Huid _ _ eq_refl eq_refl).
  - intros Huid. f_equal. exact (Huid _ _ eq_refl eq_refl).
Qed.


End FilterProperties.

(** ** Instances of the further conditional theorems *)

Lemma scenario_db0_wf : db_wf Scenario.db0.
Proof.
  constructor; try (apply (bool_decide_unpack _); vm_compute; exact I);
    intros x Hx; inversion Hx.
Qed.

Lemma fixture_listing_wf : db_wf Fixture.listing.
Proof.
  constructor; try (apply (bool_decide_unpack _); vm_compute; exact I).
  - apply Forall_forall. apply (bool_decide_unpack _). vm_compute. exact I.
  - apply Forall_forall. apply (bool_decide_unpack _). vm_compute. exact I.
Qed.

Lemma run_appends_posts_with_logs_witness :
  topics Scenario.db1 = topics Scenario.db0
  ∧ ∃ new_posts new_logs,
      posts Scenario.db1 = posts Scenario.db0 ++ new_posts
      ∧ push_logs Scenario.db1 = push_logs Scenario.db0 ++ new_logs
      ∧ length new_posts = 1%nat
      ∧ Forall2 (log_of_post 200) new_logs new_posts.
Proof.
  exact (run_appends_posts_with_logs ascii_lower Scenario.feed_ab 200
           Scenario.db0 Scenario.db1 _ (NoDup_nil_2 (A:=string))
           scenario_first_run).
Defined.

Lemma run_posts_come_from_kept_entries_witness :
  ∃ items kept new_posts,
    fetch_items ascii_lower Scenario.feed_ab 200
      (_get_active_topics Scenario.db0) = Ok items
    ∧ kept `sublist_of` items
    ∧ posts Scenario.db1 = posts Scenario.db0 ++ new_posts
    ∧ Forall2 (post_of_item 200) new_posts kept
    ∧ Forall (fun i => item_keep ascii_lower i = true
                       ∧ i.1 ∈ _get_active_topics Scenario.db0) kept.
Proof.
  exact (run_posts_come_from_kept_entries ascii_lower Scenario.feed_ab 200
           Scenario.db0 Scenario.db1 _ (NoDup_nil_2 (A:=string))
           scenario_first_run).
Defined.

Lemma run_preserves_constraints_witness :
  db_wf (fetch_all_topics ascii_lower Scenario.feed_ab 200 Scenario.db0).1.
Proof.
  exact (run_preserves_constraints ascii_lower Scenario.feed_ab 200
           Scenario.db0 scenario_db0_wf).
Defined.

Lemma run_persists_every_kept_entry_witness :
  ∃ items,
    fetch_items ascii_lower Scenario.feed_ab 200
      (_get_active_topics Scenario.db0) = Ok items
    ∧ ∀ i, i ∈ items → item_keep ascii_lower i = true →
           persisted Scenario.db1 i = true.
Proof.
  exact (run_persists_every_kept_entry ascii_lower Scenario.feed_ab 200
           Scenario.db0 Scenario.db1 _ (NoDup_nil_2 (A:=string))
           scenario_first_run).
Defined.

Lemma run_counters_account_for_entries_witness :
  1%nat = length (_get_active_topics Scenario.db0)
  ∧ ∃ items,
      fetch_items ascii_lower Scenario.feed_ab 200
        (_get_active_topics Scenario.db0) = Ok items
      ∧ (1 + 0 ≤ length items)%nat
      ∧ ((∀ topic, topic ∈ _get_active_topics Scenario.db0 →
                   accepts_all topic) →
         (1 + 0 = length items)%nat).
Proof.
  exact (run_counters_account_for_entries ascii_lower Scenario.feed_ab 200
           Scenario.db0 Scenario.db1 _ (NoDup_nil_2 (A:=string))
           scenario_first_run).
Defined.

(** The two feeds differ at the other topic's URL only. *)
Lemma run_reads_active_feeds_only_witness :
  fetch_all_topics ascii_lower Scenario.feed_ab 200 Scenario.db0
  = fetch_all_topics ascii_lower Scenario.feed_down 200 Scenario.db0.
Proof.
  apply (run_reads_active_feeds_only ascii_lower Scenario.feed_ab
           Scenario.feed_down 200 Scenario.db0).
  intros topic Hin _. apply list_elem_of_singleton in Hin as ->.
  reflexivity.
Defined.

Lemma topic_lookup_finds_the_row_witness :
  crud.get_topic sqlite Fixture.listing 2
  = Ok (Some (Fixture.topic 2 "Linux Do" "linux.do" false))
  ∧ crud.get_topic_by_name Fixture.listing "Linux Do"
    = Ok (Some (Fixture.topic 2 "Linux Do" "linux.do" false))
  ∧ crud.get_topic sqlite Fixture.listing 7 = Ok None
  ∧ ∃ e, crud.get_topic sqlite Fixture.listing (2 ^ 63) = Err e.
Proof.
  destruct (topic_lookup_finds_the_row sqlite Fixture.listing
              (Fixture.topic 2 "Linux Do" "linux.do" false) 7)
    as (Hid & Hname & _ & Hnone & _).
  - apply (wf_topic_ids _ fixture_listing_wf).
  - apply (wf_topic_names _ fixture_listing_wf).
  - apply elem_of_cons. right. apply elem_of_cons. by left.
  - split; [by apply Hid|]. split; [exact Hname|]. split.
    + apply Hnone. split; [reflexivity|].
      apply (bool_decide_unpack _). vm_compute. exact I.
    + destruct (topic_lookup_finds_the_row sqlite Fixture.listing
                  (Fixture.topic 2 "Linux Do" "linux.do" false) (2 ^ 63))
        as (_ & _ & _ & _ & Hraises).
      * apply (wf_topic_ids _ fixture_listing_wf).
      * apply (wf_topic_names _ fixture_listing_wf).
      * apply elem_of_cons. right. apply elem_of_cons. by left.
      * apply Hraises. reflexivity.
Defined.


Lemma create_topic_preserves_constraints_witness :
  db_wf (main.create_topic Scenario.db0 300 Scenario.same_name).1.
Proof.
  exact (create_topic_preserves_constraints Scenario.db0 300
           Scenario.same_name scenario_db0_wf).
Defined.

Lemma update_topic_preserves_constraints_witness :
  db_wf (main.update_topic sqlite Scenario.db0 300 1 Scenario.deactivate).1.
Proof.
  exact (update_topic_preserves_constraints sqlite Scenario.db0 300 1
           Scenario.deactivate scenario_db0_wf).
Defined.

Lemma update_null_keywords_commits_then_fails_witness :
  ∃ db',
    main.update_topic sqlite Scenario.db0 300 1
      {| update_name := None; update_source := None;
         update_feed_url := None; update_keywords := Some None;
         update_is_active := None |}
    = (db', Unhandled
              (ValidationError "keywords: Input should be a valid list"))
    ∧ main.get_topic sqlite db' 1
      = Unhandled (ValidationError "keywords: Input should be a valid list").
Proof.
  destruct (update_null_keywords_commits_then_fails sqlite Scenario.db0 300 1
              Scenario.python_topic
              {| update_name := None; update_source := None;
                 update_feed_url := None; update_keywords := Some None;
                 update_is_active := None |} scenario_db0_wf eq_refl)
    as (db' & Hrun & _ & _ & _ & Hget); [done | done |].
  by exists db'.
Defined.

Lemma delete_topic_preserves_constraints_witness :
  db_wf (main.delete_topic sqlite Fixture.listing 1).1.
Proof.
  exact (delete_topic_preserves_constraints sqlite Fixture.listing 1
           fixture_listing_wf).
Defined.

Lemma delete_topic_lowers_stats_witness :
  topics_total (main.system_stats Fixture.listing)
  = S (topics_total
         (main.system_stats (main.delete_topic sqlite Fixture.listing 1).1))
  ∧ posts_total (main.system_stats Fixture.listing)
    = (posts_total
         (main.system_stats (main.delete_topic sqlite Fixture.listing 1).1)
       + 2)%nat
  ∧ (logs_total
       (main.system_stats (main.delete_topic sqlite Fixture.listing 1).1)
     ≤ logs_total (main.system_stats Fixture.listing))%nat.
Proof.
  destruct (delete_topic_lowers_stats sqlite Fixture.listing 1
              (Fixture.topic 1 "V2EX Hot" "v2ex" true)
              (wf_topic_ids _ fixture_listing_wf) eq_refl)
    as (Htopics & Hposts & Hlogs).
  split; [exact Htopics|]. split; [|exact Hlogs].
  apply (Hposts 0%N 0%N [] 2%nat). reflexivity.
Defined.

Lemma stats_after_run_witness :
  main.system_stats Scenario.db1
  = {| topics_total := 1; active_topics := 1; posts_total := 1;
       logs_total := 1 |}
  ∧ active_topics (main.system_stats Scenario.db0) = 1%nat.
Proof.
  exact (stats_after_run ascii_lower Scenario.feed_ab 200 Scenario.db0
           Scenario.db1 _ (NoDup_nil_2 (A:=string)) scenario_first_run).
Defined.

Lemma list_posts_pages_witness :
  length (List.filter (post_matches (topics Fixture.listing) None
                         (Some "v2ex")) (posts Fixture.listing)) = 2%nat
  ∧ StronglySorted newest_post_first
      [Fixture.post 2 1 "v2ex:2" 1060; Fixture.post 1 1 "v2ex:1" 1000]
  ∧ crud.list_posts sqlite Fixture.listing (2 ^ 63) 2 None (Some "v2ex")
    = Err (OverflowError "Python int too large to convert to SQLite INTEGER").
Proof.
  destruct (list_posts_pages sqlite Fixture.listing 0 2 None (Some "v2ex")
              (wf_topic_ids _ fixture_listing_wf) sqlite_sorts)
    as (_ & _ & Hpage).
  destruct (Hpage [Fixture.post 2 1 "v2ex:2" 1060;
                   Fixture.post 1 1 "v2ex:1" 1000] 2%nat eq_refl)
    as (Htotal & _ & Hsorted & _).
  split; [by rewrite <- Htotal|]. split; [exact Hsorted|].
  destruct (list_posts_pages sqlite Fixture.listing (2 ^ 63) 2 None
              (Some "v2ex") (wf_topic_ids _ fixture_listing_wf) sqlite_sorts)
    as (Hraises & _).
  apply Hraises. reflexivity.
Defined.

Lemma list_push_logs_pages_witness :
  length (List.filter (log_matches (Some "pending"))
            (push_logs Fixture.listing)) = 2%nat
  ∧ StronglySorted newest_log_first [Fixture.log 1 1 "pending" 1000].
Proof.
  destruct (list_push_logs_pages sqlite Fixture.listing 1 1 (Some "pending")
              sqlite_sorts)
    as (_ & _ & Hpage).
  destruct (Hpage [Fixture.log 1 1 "pending" 1000] 2%nat eq_refl)
    as (Htotal & _ & Hsorted & _).
  split; [by rewrite <- Htotal | exact Hsorted].
Defined.


Lemma match_keywords_same_keywords_witness :
  match_keywords ascii_lower (VStr "Flask tutorial") ["django"; "flask"]
  = match_keywords ascii_lower (VStr "Flask tutorial")
      ["flask"; "django"; "flask"].
Proof.
  apply (match_keywords_same_keywords ascii_lower (VStr "Flask tutorial")
           ["django"; "flask"] ["flask"; "django"; "flask"]).
  intros k. rewrite !elem_of_cons, !elem_of_nil. tauto.
Defined.

Lemma match_keywords_blank_keyword_witness :
  match_keywords ascii_lower (VStr "Rust updates") ["python"; ""] = true.
Proof.
  apply (match_keywords_blank_keyword ascii_lower "R" "ust updates"
           ["python"; ""]).
  - reflexivity.
  - apply elem_of_cons. right. apply elem_of_cons. by left.
Defined.


Lemma uid_ignores_source_and_clock_witness :
  (n ← _entry_to_dict Scenario.python_release "v2ex" 200;;;
   Ok (entry_uid n))
  = (n ← _entry_to_dict Scenario.python_release "nodeseek" 500;;;
     Ok (entry_uid n)).
Proof.
  apply (uid_ignores_source_and_clock Scenario.python_release).
  by left.
Defined.

(** The entry A of the scenario: its title and link are the feed's. *)
Lemma entry_title_link_not_null_witness :
  entry_title Scenario.unrelated_a_entry = VStr "Unrelated"
  ∧ entry_link Scenario.unrelated_a_entry = VStr "https://example.com/other".
Proof.
  destruct (entry_title_link_not_null ascii_lower Scenario.unrelated_a "v2ex"
              500 Scenario.unrelated_a_entry)
    as (Htitle & Hlink & _).
  - vm_compute. reflexivity.
  - split; [exact Htitle | exact Hlink].
Defined.

